(** * worktree-tools: the configuration normalizer and validator

    A shallow embedding of [scripts/normalize_config.py] and
    [scripts/validate_config.py], and the properties of the extraction,
    the alias resolution, the template merge and the structural validator.

    A Python [str] is modelled as a list of characters ([list ascii], code
    points 0 to 255), a document split on line feeds as a list of such
    lines, the [full_to_short] dictionary as a [gmap], the insertion-ordered
    [simple] dictionary and the tuple lists as association lists. *)

From Stdlib Require Import Ascii String.
From stdpp Require Import base option list gmap strings.

Local Open Scope list_scope.

(** ** Text primitives *)

Definition str : Type := list ascii.

Definition txt (s : string) : str := list_ascii_of_string s.

Definition NL : ascii := "010"%char.

(** [s.split('\n')]: one more piece than there are line feeds. *)
Fixpoint split_nl (s : str) : list str :=
  match s with
  | [] => [[]]
  | c :: s' =>
      if Ascii.eqb c NL then [] :: split_nl s'
      else match split_nl s' with
           | l :: ls => (c :: l) :: ls
           | [] => [[c]]
           end
  end.

(** ['\n'.join(ls)]. *)
Fixpoint join_nl (ls : list str) : str :=
  match ls with
  | [] => []
  | [l] => l
  | l :: ls' => l ++ NL :: join_nl ls'
  end.

(** [s.startswith(p)]. *)
Fixpoint starts_with (p s : str) : bool :=
  match p, s with
  | [], _ => true
  | _ :: _, [] => false
  | a :: p', b :: s' => Ascii.eqb a b && starts_with p' s'
  end.

(** [p in s] for strings. *)
Fixpoint contains (p s : str) : bool :=
  starts_with p s ||
  match s with
  | [] => false
  | _ :: s' => contains p s'
  end.

(** [str.isspace] on the code points 0 to 255. *)
Definition py_isspace (c : ascii) : bool :=
  let n := nat_of_ascii c in
  ((9 <=? n) && (n <=? 13)) || ((28 <=? n) && (n <=? 32))
  || (n =? 133) || (n =? 160).

(** [s.strip() == '']. *)
Definition strip_is_empty (s : str) : bool := forallb py_isspace s.

Definition no_nl (s : str) : Prop := NL ∉ s.

#[global] Instance no_nl_dec (s : str) : Decision (no_nl s).
Proof. unfold no_nl. apply _. Defined.

(** Decides a closed goal by evaluation. *)
Ltac decide_closed :=
  lazymatch goal with
  | |- ?P => apply (bool_decide_unpack P); vm_compute; exact I
  end.

(** ** The validator ([validate_config.py]) *)

Module Validator.

Inductive array_name := REPO_CONFIGS | REPO_MODULES | REPO_IDE_CONFIGS.

Definition array_eqb (a b : array_name) : bool :=
  match a, b with
  | REPO_CONFIGS, REPO_CONFIGS
  | REPO_MODULES, REPO_MODULES
  | REPO_IDE_CONFIGS, REPO_IDE_CONFIGS => true
  | _, _ => false
  end.

Definition name_of (a : array_name) : str :=
  match a with
  | REPO_CONFIGS => txt "REPO_CONFIGS"
  | REPO_MODULES => txt "REPO_MODULES"
  | REPO_IDE_CONFIGS => txt "REPO_IDE_CONFIGS"
  end.

(** The keys of [needs_declaration], in the order the dict lists them. *)
Definition array_names : list array_name :=
  [REPO_CONFIGS; REPO_MODULES; REPO_IDE_CONFIGS].

(** A dict from the three array names to a flag. *)
Definition flags : Type := array_name -> bool.

Definition all_false : flags := fun _ => false.

Definition set_true (a : array_name) (d : flags) : flags :=
  fun b => if array_eqb a b then true else d b.

(** [f'declare -gA {array_name}' in line] *)
Definition declares (a : array_name) (line : str) : bool :=
  contains (txt "declare -gA " ++ name_of a) line.

(** [re.match(rf'^{array_name}\[', line)] *)
Definition assigns (a : array_name) (line : str) : bool :=
  starts_with (name_of a ++ txt "[") line.

(** ['[[ -z ${(t)NAME} ]] && declare -gA NAME'] *)
Definition guard_line (a : array_name) : str :=
  txt "[[ -z ${(t)" ++ name_of a ++ txt "} ]] && declare -gA " ++ name_of a.

Definition issue_text (a : array_name) : str :=
  txt "Missing " ++ name_of a ++ txt " declaration".

Definition fix_text (a : array_name) : str :=
  txt "Added: " ++ guard_line a.

(** The fields [issues] and [fixes] of a [ConfigValidator]. *)
Record validator := MkValidator { issues : list str; fixes : list str }.

Definition fresh : validator := MkValidator [] [].

(** First pass of [_fix_missing_declarations]: what is declared, what is
    assigned. *)
Definition first_pass_line (st : flags * flags) (line : str) : flags * flags :=
  let '(needs_declaration, declared) := st in
  let declared :=
    fold_left (fun d a => if declares a line then set_true a d else d)
              array_names declared in
  let needs_declaration :=
    fold_left (fun d a => if assigns a line then set_true a d else d)
              array_names needs_declaration in
  (needs_declaration, declared).

Definition first_pass (lines : list str) : flags * flags :=
  fold_left first_pass_line lines (all_false, all_false).

(** The variables the second pass updates. *)
Record pass := MkPass {
  declared : flags;
  result : list str;
  fixed : bool;
  self : validator
}.

(** One of the three blocks "add the declaration before the first
    assignment". *)
Definition add_declaration (needs_declaration : flags) (a : array_name)
    (line : str) (p : pass) : pass :=
  if needs_declaration a && negb (declared p a) then
    if assigns a line then
      {| declared := set_true a (declared p);
         result := result p ++ [guard_line a; []];
         fixed := true;
         self := {| issues := issues (self p) ++ [issue_text a];
                    fixes := fixes (self p) ++ [fix_text a] |} |}
    else p
  else p.

Definition second_pass_line (needs_declaration : flags) (p : pass)
    (line : str) : pass :=
  let p := add_declaration needs_declaration REPO_IDE_CONFIGS line p in
  let p := add_declaration needs_declaration REPO_CONFIGS line p in
  let p := add_declaration needs_declaration REPO_MODULES line p in
  {| declared := declared p; result := result p ++ [line];
     fixed := fixed p; self := self p |}.

Definition _fix_missing_declarations (config : str) (v : validator)
    : str * bool * validator :=
  let lines := split_nl config in
  let '(needs_declaration, declared0) := first_pass lines in
  let p := fold_left (second_pass_line needs_declaration) lines
             {| declared := declared0; result := []; fixed := false;
                self := v |} in
  (join_nl (result p), fixed p, self p).

(** The look-ahead of [_fix_section_spacing]: [prev] is [lines[j-1]], the
    list is [lines[j:]].  It skips the following REPO_MAPPINGS lines and
    tells whether a section header follows them without a blank line. *)
Fixpoint header_without_blank (prev : str) (rest : list str) : bool :=
  match rest with
  | [] => false
  | l :: rest' =>
      if starts_with (txt "REPO_MAPPINGS[") l then header_without_blank l rest'
      else starts_with (txt "#") l && contains (txt "===") l
           && negb (strip_is_empty prev)
  end.

Fixpoint spacing_loop (lines : list str) (result : list str) (fixed : bool)
    : list str * bool :=
  match lines with
  | [] => (result, fixed)
  | line :: rest =>
      let result := result ++ [line] in
      if starts_with (txt "REPO_MAPPINGS[") line then
        if header_without_blank line rest
        then (* pass *) spacing_loop rest result fixed
        else spacing_loop rest result fixed
      else spacing_loop rest result fixed
  end.

Definition _fix_section_spacing (config : str) : str * bool :=
  let '(result, fixed) := spacing_loop (split_nl config) [] false in
  (join_nl result, fixed).

(** The body of [validate_and_fix], from [config = read_text()] on. *)
Definition validate_and_fix (config : str) (v : validator)
    : str * bool * validator :=
  let had_issues := false in
  let '(config, fixed, v) := _fix_missing_declarations config v in
  let had_issues := if fixed then true else had_issues in
  let '(config, fixed) := _fix_section_spacing config in
  let had_issues := if fixed then true else had_issues in
  (config, had_issues, v).

Inductive exception := FileNotFoundError.

(** [validate_and_fix] with the file system seen as the text at
    [config_path], if there is a file. *)
Definition validate_and_fix_path (file : option str) (v : validator)
    : exception + str * bool * validator :=
  match file with
  | None => inl FileNotFoundError
  | Some config => inr (validate_and_fix config v)
  end.

End Validator.

(** ** The normalizer ([normalize_config.py]) *)

Module Normalizer.

Definition DQ : ascii := "034"%char.
Definition RB : ascii := "]"%char.

(** A literal in which a backquote stands for a double quote. *)
Definition q (s : string) : str :=
  map (fun c => if Ascii.eqb c "`"%char then DQ else c) (list_ascii_of_string s).

(** The longest prefix of [s] without the character [stop], and what
    follows it (a greedy negated character class). *)
Fixpoint take_until (stop : ascii) (s : str) : str :=
  match s with
  | [] => []
  | c :: s' => if Ascii.eqb c stop then [] else c :: take_until stop s'
  end.

Fixpoint drop_until (stop : ascii) (s : str) : str :=
  match s with
  | [] => []
  | c :: s' => if Ascii.eqb c stop then s else drop_until stop s'
  end.

Fixpoint strip_prefix (p s : str) : option str :=
  match p, s with
  | [], _ => Some s
  | _ :: _, [] => None
  | a :: p', b :: s' => if Ascii.eqb a b then strip_prefix p' s' else None
  end.

(** [re.search] of the pattern "start of line, VAR=, any characters but a
    line feed, end of line" with [re.MULTILINE]: the text is scanned from
    left to right, [bol] tells whether the position starts a line; the
    result is group 1 of the first match. *)
Fixpoint search_simple (var : str) (bol : bool) (s : str) : option str :=
  match (if bol then strip_prefix (var ++ txt "=") s else None) with
  | Some v => Some (take_until NL v)
  | None =>
      match s with
      | [] => None
      | c :: s' => search_simple var (Ascii.eqb c NL) s'
      end
  end.

(** One attempt at the start of [s] of the pattern "NAME, an opening
    bracket, one or more characters but a closing bracket (the key), a
    closing bracket, an equals sign, a double quote, any characters but a
    double quote (the value), a double quote": the key, the value and the
    length of the match.  The two character classes also match line
    feeds. *)
Definition match_entry (name : str) (s : str) : option (str * str * nat) :=
  match strip_prefix (name ++ txt "[") s with
  | None => None
  | Some s1 =>
      let key := take_until RB s1 in
      match key with
      | [] => None
      | _ :: _ =>
          match strip_prefix (q "]=`") (drop_until RB s1) with
          | None => None
          | Some s3 =>
              let value := take_until DQ s3 in
              match drop_until DQ s3 with
              | [] => None
              | _ :: _ =>
                  Some (key, value,
                        length name + 1 + length key + 3 + length value + 1)
              end
          end
      end
  end.

(** [re.findall(pattern, config, re.MULTILINE)]: the matches from left to
    right, without overlap.  [skip] counts the characters of the last match
    that are still to be passed over. *)
Fixpoint findall_from (name : str) (skip : nat) (bol : bool) (s : str)
    : list (str * str) :=
  match s with
  | [] => []
  | c :: s' =>
      match skip with
      | S n => findall_from name n (Ascii.eqb c NL) s'
      | O =>
          match (if bol then match_entry name s else None) with
          | Some (key, value, len) =>
              (key, value) :: findall_from name (pred len) (Ascii.eqb c NL) s'
          | None => findall_from name 0 (Ascii.eqb c NL) s'
          end
      end
  end.

Definition findall (name : str) (config : str) : list (str * str) :=
  findall_from name 0 true config.

(** [d[k] = v] on an insertion-ordered dict. *)
Fixpoint dict_set (k v : str) (d : list (str * str)) : list (str * str) :=
  match d with
  | [] => [(k, v)]
  | (k', v') :: d' =>
      if bool_decide (k' = k) then (k, v) :: d' else (k', v') :: dict_set k v d'
  end.

(** [d.get(k)] on that dict. *)
Fixpoint dict_get (k : str) (d : list (str * str)) : option str :=
  match d with
  | [] => None
  | (k', v') :: d' => if bool_decide (k' = k) then Some v' else dict_get k d'
  end.

Definition simple_vars : list str :=
  [txt "GIT_USERNAME"; txt "BRANCH_PREFIX"; txt "BASE_DEV_PATH";
   txt "CONFIG_VERSION"].

(** The dict [values] of [_extract_user_values]. *)
Record user_values := MkValues {
  simple : list (str * str);
  mappings : list (str * str);
  ide_configs : list (str * str);
  repo_configs : list (str * str);
  repo_modules : list (str * str)
}.

Definition extract_simple (config : str) : list (str * str) :=
  fold_left
    (fun d var =>
       match search_simple var true config with
       | Some v => dict_set var v d
       | None => d
       end)
    simple_vars [].

(** [full_to_short[full_name] = shorthand] for every mapping, in order. *)
Definition build_full_to_short (mappings : list (str * str)) : gmap str str :=
  fold_left (fun d '(shorthand, full_name) => <[full_name := shorthand]> d)
            mappings empty.

(** [final_key = full_to_short.get(key, key)] for every raw entry. *)
Definition resolve_keys (full_to_short : gmap str str)
    (raw : list (str * str)) : list (str * str) :=
  map (fun '(key, value) => (default key (full_to_short !! key), value)) raw.

Definition _extract_user_values (config : str) : user_values :=
  let mappings := findall (txt "REPO_MAPPINGS") config in
  let full_to_short := build_full_to_short mappings in
  {| simple := extract_simple config;
     mappings := mappings;
     ide_configs :=
       resolve_keys full_to_short (findall (txt "REPO_IDE_CONFIGS") config);
     repo_configs :=
       resolve_keys full_to_short (findall (txt "REPO_CONFIGS") config);
     repo_modules :=
       resolve_keys full_to_short (findall (txt "REPO_MODULES") config) |}.

(** The loop over [simple.items()] that replaces a simple variable. *)
Fixpoint replace_simple (simple : list (str * str)) (line : str) : str :=
  match simple with
  | [] => line
  | (var, value) :: rest =>
      if starts_with (var ++ txt "=") line then var ++ txt "=" ++ value
      else replace_simple rest line
  end.

(** The f-string NAME, bracketed key, equals sign, quoted value. *)
Definition format_entry (name : str) (kv : str * str) : str :=
  name ++ txt "[" ++ fst kv ++ q "]=`" ++ snd kv ++ q "`".

Fixpoint take_while {A} (f : A -> bool) (l : list A) : list A :=
  match l with
  | [] => []
  | x :: l' => if f x then x :: take_while f l' else []
  end.

Fixpoint drop_while {A} (f : A -> bool) (l : list A) : list A :=
  match l with
  | [] => []
  | x :: l' => if f x then drop_while f l' else l
  end.

Definition mappings_marker : str := txt "[[ -z ${(t)REPO_MAPPINGS}".

(** The user's mappings after the REPO_MAPPINGS declaration. *)
Definition mappings_block (uv : user_values) : list str :=
  match mappings uv with
  | [] => []
  | _ :: _ => [] :: map (format_entry (txt "REPO_MAPPINGS")) (mappings uv)
  end.

(** The user's entries of an optional section, between two blank lines. *)
Definition entries_block (name : str) (entries : list (str * str)) : list str :=
  match entries with
  | [] => []
  | _ :: _ => [] :: map (format_entry name) entries ++ [[]]
  end.

(** "Skip everything until next section header (===)". *)
Definition skip_to_section (lines : list str) : list str :=
  drop_while (fun l => negb (contains (txt "===") l)) lines.

Definition ide_example (l : str) : bool :=
  starts_with (txt "# REPO_IDE_CONFIGS[") l.

Definition ci_first_example (l : str) : bool :=
  starts_with (txt "# Android example:") l
  || starts_with (txt "# REPO_CONFIGS[") l.

Definition ci_example (l : str) : bool :=
  starts_with (txt "# Android example:") l
  || starts_with (txt "# iOS example:") l
  || starts_with (txt "# Web example:") l
  || starts_with (txt "# REPO_CONFIGS[") l.

Definition modules_first_example (l : str) : bool :=
  starts_with (txt "# Android modules:") l
  || starts_with (txt "# REPO_MODULES[") l.

Definition modules_example (l : str) : bool :=
  starts_with (txt "# Android modules:") l
  || starts_with (txt "# iOS modules:") l
  || starts_with (txt "# Web packages:") l
  || starts_with (txt "# REPO_MODULES[") l.

(** The loop "Skip example config lines" of the CI and the modules
    sections. *)
Fixpoint skip_examples (is_example : str -> bool) (lines : list str)
    : list str :=
  match lines with
  | [] => []
  | l :: rest =>
      if is_example l then skip_examples is_example rest
      else if starts_with (txt "# ===") l then lines
      else if strip_is_empty l
              && match rest with
                 | n :: _ => starts_with (txt "# ===") n
                 | [] => false
                 end
      then rest
      else lines
  end.

(** The main loop of [normalize]; [lines] is [lines[i:]], the value is what
    is appended to [result] from there on.  Every turn moves [i] forward, so
    [fuel = len(lines)] turns are enough. *)
Fixpoint normalize_loop (fuel : nat) (uv : user_values) (lines : list str)
    : list str :=
  match fuel, lines with
  | O, _ => []
  | _, [] => []
  | S fuel, line :: rest =>
      let line := replace_simple (simple uv) line in
      if contains mappings_marker line then
        line :: mappings_block uv
        ++ normalize_loop fuel uv (skip_to_section rest)
      else if starts_with (txt "# Optional: IDE configuration") line then
        line :: take_while (fun l => negb (ide_example l)) rest
        ++ entries_block (txt "REPO_IDE_CONFIGS") (ide_configs uv)
        ++ normalize_loop fuel uv
             (drop_while ide_example
                (drop_while (fun l => negb (ide_example l)) rest))
      else if starts_with (txt "# Optional: CI commands") line then
        line :: take_while (fun l => negb (ci_first_example l)) rest
        ++ entries_block (txt "REPO_CONFIGS") (repo_configs uv)
        ++ normalize_loop fuel uv
             (skip_examples ci_example
                (drop_while (fun l => negb (ci_first_example l)) rest))
      else if starts_with (txt "# Optional: Modular builds") line then
        line :: take_while (fun l => negb (modules_first_example l)) rest
        ++ entries_block (txt "REPO_MODULES") (repo_modules uv)
        ++ normalize_loop fuel uv
             (skip_examples modules_example
                (drop_while (fun l => negb (modules_first_example l)) rest))
      else line :: normalize_loop fuel uv rest
  end.

Definition normalize_lines (uv : user_values) (lines : list str) : list str :=
  normalize_loop (length lines) uv lines.

Record ConfigNormalizer := MkNormalizer {
  user_config : str;
  example_config : str;
  values : user_values
}.

Definition init (user_config example_config : str) : ConfigNormalizer :=
  {| user_config := user_config; example_config := example_config;
     values := _extract_user_values user_config |}.

Definition normalize (self : ConfigNormalizer) : str :=
  join_nl (normalize_lines (values self) (split_nl (example_config self))).

End Normalizer.

(** ** The template

    [config.zsh.example] as the fixture [example_config] of
    [test_normalize_config.py] gives it, line by line (in a [q] literal a
    backquote stands for a double quote). *)

Module Template.

Import Normalizer.

Definition example_lines : list str :=
  [
    q "#!/usr/bin/env zsh";
    q "# Worktree Tools Configuration";
    q "# Copy to: ~/.config/worktree-tools/config.zsh";
    q "";
    q "# Config version (for migrations)";
    q "CONFIG_VERSION=1";
    q "";
    q "# =============================================================================";
    q "# REQUIRED: Update these for your setup";
    q "# =============================================================================";
    q "";
    q "GIT_USERNAME=`${USER}`";
    q "";
    q "# Branch prefix (set to `` for no prefix)";
    q "# `john` creates: john/my-feature";
    q "# `` creates: my-feature";
    q "BRANCH_PREFIX=`${USER}`";
    q "";
    q "# Where you ran setup_repos.sh (contains .repos/ and worktrees/)";
    q "# Examples: `$HOME/work/mobile`, `$HOME/dev`, `$HOME/projects`";
    q "BASE_DEV_PATH=`$HOME/dev`";
    q "";
    q "# =============================================================================";
    q "# Repository shortcuts";
    q "# =============================================================================";
    q "";
    q "[[ -z ${(t)REPO_MAPPINGS} ]] && declare -gA REPO_MAPPINGS";
    q "";
    q "# Add your repos here:";
    q "# REPO_MAPPINGS[shorthand]=`Full-Repo-Name`";
    q "#";
    q "# Examples:";
    q "# REPO_MAPPINGS[acmd]=`Company-Android`";
    q "# REPO_MAPPINGS[alib]=`Company-Android-Library`";
    q "# REPO_MAPPINGS[icmd]=`Company-iOS`";
    q "# REPO_MAPPINGS[ilib]=`Company-iOS-Library`";
    q "";
    q "# =============================================================================";
    q "# Optional: IDE configuration (uncomment to enable 'ide' command)";
    q "# =============================================================================";
    q "";
    q "# Opens the configured IDE when you run 'ide' from within a repo";
    q "# Format: `ide_type|workspace_path|fallback_command`";
    q "#";
    q "# NOTE: You can use either shorthand OR full repo name as keys.";
    q "#       Shorthand is recommended, but both work for backward compatibility.";
    q "";
    q "# REPO_IDE_CONFIGS[acmd]=`android-studio||`";
    q "# REPO_IDE_CONFIGS[alib]=`android-studio||`";
    q "# REPO_IDE_CONFIGS[icmd]=`xcode-workspace|Company-iOS.xcworkspace|`";
    q "# REPO_IDE_CONFIGS[ilib]=`xcode-package|.swiftpm/xcode/package.xcworkspace|swift package generate-xcodeproj`";
    q "";
    q "# =============================================================================";
    q "# Optional: CI commands (uncomment to enable ci/test/lint shortcuts)";
    q "# =============================================================================";
    q "";
    q "# Enables running 'ci', 'test', or 'lint' from within a repo";
    q "# Format: `build_cmd|test_cmd|lint_cmd`";
    q "#";
    q "# NOTE: You can use either shorthand OR full repo name as keys.";
    q "#       Shorthand is recommended, but both work for backward compatibility.";
    q "";
    q "# Android example:";
    q "# REPO_CONFIGS[acmd]=`./gradlew --quiet assembleDebug|./gradlew --quiet testDebugUnitTest|./gradlew --quiet lintDebug detekt`";
    q "";
    q "# iOS example:";
    q "# REPO_CONFIGS[icmd]=`bundle exec fastlane build|bundle exec fastlane unit_tests|swiftlint --strict`";
    q "";
    q "# Web example:";
    q "# REPO_CONFIGS[web]=`npm run build|npm test|npm run lint`";
    q "";
    q "# =============================================================================";
    q "# Optional: Modular builds (uncomment to enable ci_modules/lint_modules)";
    q "# =============================================================================";
    q "";
    q "# For monorepos with multiple modules - lets you select which ones to build/lint";
    q "# Format: space-separated list of modules";
    q "#";
    q "# NOTE: You can use either shorthand OR full repo name as keys.";
    q "#       Shorthand is recommended, but both work for backward compatibility.";
    q "";
    q "# Android modules:";
    q "# REPO_MODULES[acmd]=`app-core app-feature-auth app-feature-profile`";
    q "";
    q "# iOS modules:";
    q "# REPO_MODULES[icmd]=`CoreModule AuthModule ProfileModule`";
    q "";
    q "# Web packages:";
    q "# REPO_MODULES[web]=`packages/ui packages/api packages/utils`";
    q "";
    q "# =============================================================================";
    q "# Auto-computed paths (don't change unless you have custom structure)";
    q "# =============================================================================";
    q "";
    q "BARE_REPOS_PATH=`$BASE_DEV_PATH/.repos`";
    q "WORKTREES_PATH=`$BASE_DEV_PATH/worktrees`";
    q "WORKTREE_TEMPLATES_PATH=`$BASE_DEV_PATH/worktree_templates`";
    q ""
  ].

Definition example_config : str := join_nl example_lines.

(** [merge(user, template)] of the specification. *)
Definition merge (user template : str) : str := normalize (init user template).

End Template.


(** ** Notions used to state the properties *)

Module Spec.

Import Validator.

(** How often the issue of an array is recorded. *)
Definition count_issue (a : array_name) (v : validator) : nat :=
  length (filter (fun i => i = issue_text a) (issues v)).

(** Some line holds the whole declaration guard of the array. *)
Definition has_guard_line (a : array_name) (lines : list str) : bool :=
  existsb (contains (guard_line a)) lines.

(** A document that declares REPO_CONFIGS without the guard. *)
Definition unguarded_config : str :=
  join_nl [txt "declare -gA REPO_CONFIGS"; Normalizer.q "REPO_CONFIGS[acmd]=`build`"].

(** A document that assigns to the three arrays and declares none. *)
Definition undeclared_config : str :=
  join_nl [txt "#!/usr/bin/env zsh";
           Normalizer.q "REPO_IDE_CONFIGS[acmd]=`android-studio||`";
           Normalizer.q "REPO_CONFIGS[acmd]=`build|test|lint`";
           Normalizer.q "REPO_CONFIGS[icmd]=`build|test|lint`";
           Normalizer.q "REPO_MODULES[acmd]=`core feature`"].

(** The entry a line holds when the entry pattern matches at its start. *)
Definition line_entry (name : str) (l : str) : option (str * str) :=
  match Normalizer.match_entry name l with
  | Some (k, v, _) => Some (k, v)
  | None => None
  end.

(** A line that starts with NAME and a bracket holds a whole entry. *)
Definition entry_closed (name : str) (l : str) : bool :=
  match Normalizer.match_entry name l with
  | Some _ => true
  | None => negb (starts_with (name ++ txt "[") l)
  end.

(** The four tables the extraction looks for. *)
Definition table_names : list str :=
  [txt "REPO_MAPPINGS"; txt "REPO_IDE_CONFIGS"; txt "REPO_CONFIGS";
   txt "REPO_MODULES"].

(** Every table line of the document holds a whole entry. *)
Definition entries_closed (config : str) : Prop :=
  forall name l,
    name ∈ table_names -> l ∈ split_nl config -> entry_closed name l = true.

Definition comment_line (l : str) : bool := starts_with (txt "#") l.

(** The document without its lines that begin with a hash. *)
Definition without_comments (config : str) : str :=
  join_nl (filter (fun l => comment_line l = false) (split_nl config)).

(** No shorthand of the alias table is also a canonical name in it. *)
Definition aliases_separate (mappings : list (str * str)) : Prop :=
  forall s f s' f', (s, f) ∈ mappings -> (s', f') ∈ mappings -> s <> f'.

(** The keys of the [simple] dict are among the four known names. *)
Definition simple_ok (uv : Normalizer.user_values) : Prop :=
  Forall (fun kv => kv.1 ∈ Normalizer.simple_vars) (Normalizer.simple uv).

(** No line the merge writes for a simple variable holds the marker of the
    REPO_MAPPINGS declaration. *)
Definition no_marker (uv : Normalizer.user_values) : Prop :=
  forall var v,
    (var, v) ∈ Normalizer.simple uv ->
    contains Normalizer.mappings_marker (var ++ txt "=" ++ v) = false.

(** No key and no value of the extracted entries holds a line feed. *)
Definition one_line (entries : list (str * str)) : Prop :=
  Forall (fun kv => no_nl kv.1 /\ no_nl kv.2) entries.

Definition entries_one_line (uv : Normalizer.user_values) : Prop :=
  one_line (Normalizer.mappings uv) /\ one_line (Normalizer.ide_configs uv)
  /\ one_line (Normalizer.repo_configs uv)
  /\ one_line (Normalizer.repo_modules uv).

(** A template line that assigns one of the four simple variables. *)
Definition is_simple_line (l : str) : bool :=
  existsb (fun var => starts_with (var ++ txt "=") l) Normalizer.simple_vars.

(** A template line that opens one of the three optional sections. *)
Definition is_header (l : str) : bool :=
  starts_with (txt "# Optional: IDE configuration") l
  || starts_with (txt "# Optional: CI commands") l
  || starts_with (txt "# Optional: Modular builds") l.

(** What the merge loop writes, with the places of the user's data left
    open: a template line as it is, a template line of a simple variable,
    and the four blocks of user entries. *)
Inductive item :=
  | Copy (l : str)
  | Simple (l : str)
  | MappingsBlock
  | IdeBlock
  | CiBlock
  | ModulesBlock.

Definition inst (uv : Normalizer.user_values) (it : item) : list str :=
  match it with
  | Copy l => [l]
  | Simple l => [Normalizer.replace_simple (Normalizer.simple uv) l]
  | MappingsBlock => Normalizer.mappings_block uv
  | IdeBlock =>
      Normalizer.entries_block (txt "REPO_IDE_CONFIGS") (Normalizer.ide_configs uv)
  | CiBlock =>
      Normalizer.entries_block (txt "REPO_CONFIGS") (Normalizer.repo_configs uv)
  | ModulesBlock =>
      Normalizer.entries_block (txt "REPO_MODULES") (Normalizer.repo_modules uv)
  end.

(** The merge loop run on the template alone.  It gives nothing when a
    line of a simple variable could trigger a section handler. *)
Fixpoint skeleton (fuel : nat) (lines : list str) : option (list item) :=
  match fuel, lines with
  | O, _ => Some []
  | _, [] => Some []
  | S fuel, l :: rest =>
      if is_simple_line l then
        if contains Normalizer.mappings_marker l || is_header l then None
        else cons (Simple l) <$> skeleton fuel rest
      else if contains Normalizer.mappings_marker l then
        (fun r => Copy l :: MappingsBlock :: r)
          <$> skeleton fuel (Normalizer.skip_to_section rest)
      else if starts_with (txt "# Optional: IDE configuration") l then
        (fun r =>
           Copy l
           :: map Copy
                (Normalizer.take_while
                   (fun l => negb (Normalizer.ide_example l)) rest)
           ++ IdeBlock :: r)
          <$> skeleton fuel
                (Normalizer.drop_while Normalizer.ide_example
                   (Normalizer.drop_while
                      (fun l => negb (Normalizer.ide_example l)) rest))
      else if starts_with (txt "# Optional: CI commands") l then
        (fun r =>
           Copy l
           :: map Copy
                (Normalizer.take_while
                   (fun l => negb (Normalizer.ci_first_example l)) rest)
           ++ CiBlock :: r)
          <$> skeleton fuel
                (Normalizer.skip_examples Normalizer.ci_example
                   (Normalizer.drop_while
                      (fun l => negb (Normalizer.ci_first_example l)) rest))
      else if starts_with (txt "# Optional: Modular builds") l then
        (fun r =>
           Copy l
           :: map Copy
                (Normalizer.take_while
                   (fun l => negb (Normalizer.modules_first_example l)) rest)
           ++ ModulesBlock :: r)
          <$> skeleton fuel
                (Normalizer.skip_examples Normalizer.modules_example
                   (Normalizer.drop_while
                      (fun l => negb (Normalizer.modules_first_example l))
                      rest))
      else cons (Copy l) <$> skeleton fuel rest
  end.

(** The parts of the template around the REPO_MAPPINGS declaration. *)
Definition before_guard : list str := take 26 Template.example_lines.
Definition guard : str := default [] (Template.example_lines !! 26).
Definition guard_examples : list str := take 10 (drop 27 Template.example_lines).
Definition after_guard : list str := drop 37 Template.example_lines.

(** What the merge of the template writes. *)
Definition template_items : list item :=
  map (fun l => if is_simple_line l then Simple l else Copy l) before_guard
  ++ Copy guard :: MappingsBlock
  :: map Copy (take 10 after_guard)
  ++ IdeBlock :: map Copy (take 11 (drop 51 Template.example_lines))
  ++ CiBlock :: map Copy (take 17 (drop 64 Template.example_lines))
  ++ ModulesBlock :: map Copy (drop 83 Template.example_lines).

(** The lines of [ls] that start with [p], in their order. *)
Definition lines_with (p : str) (ls : list str) : list str :=
  List.filter (starts_with p) ls.

(** Neither text is a prefix of the other. *)
Definition clash (p r : str) : bool :=
  negb (starts_with p r) && negb (starts_with r p).

(** No line written for the item starts with [p], whatever the user's
    data. *)
Definition quiet_for (p : str) (it : item) : bool :=
  match it with
  | Copy l => negb (starts_with p l)
  | Simple l =>
      negb (starts_with p l)
      && forallb
           (fun var =>
              negb (starts_with (var ++ txt "=") l) || clash p (var ++ txt "="))
           Normalizer.simple_vars
  | MappingsBlock => negb (starts_with p []) && clash p (txt "REPO_MAPPINGS[")
  | IdeBlock => negb (starts_with p []) && clash p (txt "REPO_IDE_CONFIGS[")
  | CiBlock => negb (starts_with p []) && clash p (txt "REPO_CONFIGS[")
  | ModulesBlock => negb (starts_with p []) && clash p (txt "REPO_MODULES[")
  end.

(** The values of the simple variables hold no line feed. *)
Definition simple_one_line (uv : Normalizer.user_values) : Prop :=
  Forall (fun kv => no_nl kv.2) (Normalizer.simple uv).

(** Keys and values as the entry pattern takes them. *)
Definition well_formed (entries : list (str * str)) : Prop :=
  Forall (fun kv => (kv.1 <> []) /\ (Normalizer.RB ∉ kv.1)
                    /\ (Normalizer.DQ ∉ kv.2)) entries.

(** The template line of the item holds no line feed. *)
Definition item_one_line (it : item) : bool :=
  match it with
  | Copy l | Simple l => bool_decide (no_nl l)
  | _ => true
  end.

(** A user document with a second statement on the CONFIG_VERSION line. *)
Definition two_statements_config : str :=
  join_nl
    [txt "CONFIG_VERSION=1; [[ -z ${(t)REPO_MAPPINGS} ]] && declare -gA REPO_MAPPINGS";
     Normalizer.q "REPO_MAPPINGS[acmd]=`Org-Android`"].

(** A user document with a value that runs over three lines. *)
Definition multi_line_config : str :=
  join_nl
    [txt "GIT_USERNAME=bob";
     Normalizer.q "REPO_MAPPINGS[acmd]=`Org-Android";
     txt "GIT_USERNAME=bob";
     Normalizer.q "`"].

(** The user document of the scenario of the specification. *)
Definition scenario_config : str :=
  join_nl
    [txt "GIT_USERNAME=testuser";
     Normalizer.q "REPO_MAPPINGS[acmd]=`Org-Android`";
     Normalizer.q "REPO_CONFIGS[Org-Android]=`build|test|lint`"].

(** A user document in which a shorthand is also a canonical name. *)
Definition chained_config : str :=
  join_nl
    [Normalizer.q "REPO_MAPPINGS[core]=`lib`";
     Normalizer.q "REPO_MAPPINGS[c]=`core`";
     Normalizer.q "REPO_CONFIGS[lib]=`make`"].

(** A user document in which a value and a key run over a line. *)
Definition nested_config : str :=
  join_nl
    [Normalizer.q "REPO_MAPPINGS[a]=`x";
     Normalizer.q "REPO_CONFIGS[b`";
     Normalizer.q "]=`y`"].

#[global] Instance array_name_eq_dec : EqDecision array_name.
Proof. solve_decision. Defined.

(** An array that some line assigns to and that no line declares. *)
Definition undeclared (a : array_name) (lines : list str) : bool :=
  existsb (assigns a) lines && negb (existsb (declares a) lines).

(** A template line the merge loop copies as it is: it assigns no simple
    variable, holds no REPO_MAPPINGS marker and opens no optional
    section. *)
Definition plain_line (l : str) : bool :=
  negb (is_simple_line l)
  && negb (contains Normalizer.mappings_marker l)
  && negb (is_header l).

(** A line the merge loop writes from the user's data: a blank line, the
    line of a simple variable, or an entry of one of the four tables. *)
Definition written_from (uv : Normalizer.user_values) (x : str) : Prop :=
  x = []
  \/ (exists var v, (var, v) ∈ Normalizer.simple uv /\ x = var ++ txt "=" ++ v)
  \/ (exists kv, kv ∈ Normalizer.mappings uv
                 /\ x = Normalizer.format_entry (txt "REPO_MAPPINGS") kv)
  \/ (exists kv, kv ∈ Normalizer.ide_configs uv
                 /\ x = Normalizer.format_entry (txt "REPO_IDE_CONFIGS") kv)
  \/ (exists kv, kv ∈ Normalizer.repo_configs uv
                 /\ x = Normalizer.format_entry (txt "REPO_CONFIGS") kv)
  \/ (exists kv, kv ∈ Normalizer.repo_modules uv
                 /\ x = Normalizer.format_entry (txt "REPO_MODULES") kv).

(** The shorthand of the last alias entry whose canonical name is [k]. *)
Definition last_shorthand (k : str) (mappings : list (str * str)) : option str :=
  fst <$> last (filter (fun e => e.2 = k) mappings).

(** A document that declares REPO_MODULES after its first assignment. *)
Definition late_declaration_config : str :=
  join_nl [Normalizer.q "REPO_MODULES[acmd]=`core`";
           txt "declare -gA REPO_MODULES";
           Normalizer.q "REPO_CONFIGS[acmd]=`build`"].

(** Entries with a value that runs over two lines. *)
Definition two_line_entries : list (str * str) :=
  [(txt "acmd", txt "make" ++ NL :: txt "REPO_CONFIGS[x]=1");
   (txt "icmd", txt "xcodebuild")].

(** A template without recognised lines. *)
Definition plain_template : str :=
  join_nl [txt "# my settings"; txt "EDITOR=vi"; txt "# === end ==="].

(** The user document of [test_convert_full_names_to_shorthand]. *)
Definition full_names_config : str :=
  join_nl
    [txt "#!/usr/bin/env zsh";
     txt "CONFIG_VERSION=1";
     txt "GIT_USERNAME=testuser";
     txt "BRANCH_PREFIX=testuser";
     txt "BASE_DEV_PATH=/home/test/dev";
     txt "";
     txt "[[ -z ${(t)REPO_MAPPINGS} ]] && declare -gA REPO_MAPPINGS";
     Normalizer.q "REPO_MAPPINGS[acmd]=`Company-Android`";
     Normalizer.q "REPO_MAPPINGS[icmd]=`Company-iOS`";
     txt "";
     txt "# Old format: using full repo names as keys";
     Normalizer.q "REPO_CONFIGS[Company-Android]=`./gradlew build|./gradlew test|./gradlew lint`";
     Normalizer.q "REPO_CONFIGS[Company-iOS]=`bundle exec fastlane build|bundle exec fastlane test|swiftlint`";
     txt "";
     Normalizer.q "REPO_MODULES[Company-Android]=`app-core app-auth`";
     txt "";
     Normalizer.q "REPO_IDE_CONFIGS[Company-Android]=`android-studio||`";
     Normalizer.q "REPO_IDE_CONFIGS[Company-iOS]=`xcode-workspace|Company-iOS.xcworkspace|`";
     txt ""].

(** The user document of [test_normalize_empty_arrays]. *)
Definition no_entries_config : str :=
  join_nl
    [txt "#!/usr/bin/env zsh";
     txt "CONFIG_VERSION=1";
     txt "GIT_USERNAME=testuser";
     txt "BRANCH_PREFIX=testuser";
     txt "BASE_DEV_PATH=/home/test/dev";
     txt "";
     txt "[[ -z ${(t)REPO_MAPPINGS} ]] && declare -gA REPO_MAPPINGS";
     txt ""].

End Spec.
(** * Properties *)

(** ** Lines and text *)

Section Text.

Lemma split_nl_nonempty s : split_nl s <> [].
Proof.
  destruct s as [|c s]; simpl; [done|].
  destruct (Ascii.eqb c NL); [done|]. by destruct (split_nl s).
Qed.

(** Joining the pieces of a split gives the text back. *)
Lemma join_split s : join_nl (split_nl s) = s.
Proof.
  induction s as [|c s IH]; simpl; [done|].
  destruct (Ascii.eqb_spec c NL) as [->|Hc].
  - pose proof (split_nl_nonempty s) as Hne.
    destruct (split_nl s) as [|l ls]; [done|]. simpl in *. by rewrite IH.
  - pose proof (split_nl_nonempty s) as Hne.
    destruct (split_nl s) as [|l ls]; [done|].
    rewrite <- IH. by destruct ls.
Qed.

Lemma split_nl_no_nl s : Forall no_nl (split_nl s).
Proof.
  induction s as [|c s IH]; simpl.
  - constructor; [|done]. unfold no_nl. by intros ?%elem_of_nil.
  - destruct (Ascii.eqb_spec c NL) as [->|Hc].
    + constructor; [|done]. unfold no_nl. by intros ?%elem_of_nil.
    + destruct (split_nl s) as [|l ls].
      * constructor; [|done]. unfold no_nl.
        intros [?|?%elem_of_nil]%elem_of_cons; [congruence|done].
      * inversion IH as [|? ? Hl Hls]; subst. constructor; [|done].
        unfold no_nl in *. intros [?|?]%elem_of_cons; [congruence|done].
Qed.

Lemma split_nl_app_line l s :
  no_nl l -> split_nl (l ++ NL :: s) = l :: split_nl s.
Proof.
  induction l as [|c l IH]; intros Hl; simpl; [done|].
  unfold no_nl in Hl. apply not_elem_of_cons in Hl as [Hc Hl].
  destruct (Ascii.eqb_spec c NL) as [->|_]; [done|].
  by rewrite IH.
Qed.

Lemma split_nl_line l : no_nl l -> split_nl l = [l].
Proof.
  induction l as [|c l IH]; intros Hl; simpl; [done|].
  unfold no_nl in Hl. apply not_elem_of_cons in Hl as [Hc Hl].
  destruct (Ascii.eqb_spec c NL) as [->|_]; [done|].
  by rewrite IH.
Qed.

(** Splitting a join of lines without line feeds gives the lines back. *)
Lemma split_join ls : ls <> [] -> Forall no_nl ls -> split_nl (join_nl ls) = ls.
Proof.
  induction ls as [|l ls IH]; intros Hne Hls; [done|].
  inversion Hls as [|? ? Hl Hls']; subst.
  destruct ls as [|l' ls]; simpl.
  - by apply split_nl_line.
  - rewrite split_nl_app_line by done. f_equal. by apply IH.
Qed.

Lemma starts_with_app p s : starts_with p (p ++ s) = true.
Proof. induction p as [|a p IH]; simpl; [done|]. by rewrite Ascii.eqb_refl. Qed.

Lemma starts_with_inv p s : starts_with p s = true -> exists t, s = p ++ t.
Proof.
  revert s. induction p as [|a p IH]; intros s H; simpl in *; [by exists s|].
  destruct s as [|b s]; [done|]. apply andb_true_iff in H as [Hab H].
  apply Ascii.eqb_eq in Hab as ->. destruct (IH _ H) as [t ->]. by exists t.
Qed.

Lemma starts_with_app_l p s t :
  starts_with p s = true -> starts_with p (s ++ t) = true.
Proof.
  intros [u ->]%starts_with_inv. rewrite <- app_assoc. apply starts_with_app.
Qed.

Lemma contains_app_r p s t : contains p t = true -> contains p (s ++ t) = true.
Proof.
  intros H. induction s as [|c s IH]; simpl; [done|].
  rewrite IH. apply orb_true_r.
Qed.

Lemma contains_app_l p s t : contains p s = true -> contains p (s ++ t) = true.
Proof.
  induction s as [|c s IH]; simpl.
  - destruct p; [by destruct t|done].
  - intros [H|H]%orb_true_iff.
    + change (c :: s ++ t) with ((c :: s) ++ t).
      by rewrite (starts_with_app_l _ _ _ H).
    + rewrite (IH H). apply orb_true_r.
Qed.

End Text.

Section Substrings.

Lemma contains_iff p s :
  contains p s = true <-> exists u w, s = u ++ p ++ w.
Proof.
  split.
  - induction s as [|c s IH]; simpl.
    + rewrite orb_false_r. intros [t Ht]%starts_with_inv. by exists [], t.
    + intros [[t Ht]%starts_with_inv|H]%orb_true_iff; [by exists [], t|].
      destruct (IH H) as (u & w & ->). by exists (c :: u), w.
  - intros (u & w & ->). apply contains_app_r, contains_app_l.
    assert (starts_with p p = true) as H.
    { rewrite <- (app_nil_r p) at 2. apply starts_with_app. }
    destruct p; [done|]. cbn [contains]. by rewrite H.
Qed.

Lemma contains_trans p s t :
  contains p s = true -> contains s t = true -> contains p t = true.
Proof.
  intros (u & w & ->)%contains_iff (u' & w' & ->)%contains_iff.
  apply contains_iff. exists (u' ++ u), (w ++ w').
  by rewrite <- !app_assoc.
Qed.

End Substrings.

(** ** The validator *)

Section ValidatorFacts.

Import Validator Spec.

Lemma first_pass_line_spec nd d line a :
  (first_pass_line (nd, d) line).1 a = nd a || assigns a line
  /\ (first_pass_line (nd, d) line).2 a = d a || declares a line.
Proof.
  unfold first_pass_line, array_names, set_true; simpl.
  destruct a; simpl;
    repeat match goal with |- context [if ?b then _ else _] => destruct b end;
    simpl; rewrite ?orb_true_r, ?orb_false_r; done.
Qed.

Lemma first_pass_from_spec lines st a :
  (fold_left first_pass_line lines st).1 a = st.1 a || existsb (assigns a) lines
  /\ (fold_left first_pass_line lines st).2 a
     = st.2 a || existsb (declares a) lines.
Proof.
  revert st. induction lines as [|l lines IH]; intros [nd d]; cbn [fold_left].
  - simpl. by rewrite !orb_false_r.
  - destruct (first_pass_line_spec nd d l a) as [H1 H2].
    destruct (first_pass_line (nd, d) l) as [nd' d'].
    destruct (IH (nd', d')) as [-> ->]. simpl in *. rewrite H1, H2.
    by rewrite !orb_assoc.
Qed.

(** The first pass: an array needs a declaration when some line assigns to
    it, and is declared when some line holds its [declare -gA]. *)
Lemma first_pass_spec lines a :
  (first_pass lines).1 a = existsb (assigns a) lines
  /\ (first_pass lines).2 a = existsb (declares a) lines.
Proof. apply (first_pass_from_spec lines (all_false, all_false) a). Qed.

Lemma assigns_exclusive a b l :
  assigns a l = true -> assigns b l = true -> a = b.
Proof.
  unfold assigns. intros [t Ha]%starts_with_inv [u Hb]%starts_with_inv.
  destruct a, b; try done; subst l; simpl in Hb; discriminate.
Qed.

Lemma assigns_guard a b : assigns a (guard_line b) = false.
Proof. by destruct a, b. Qed.

Lemma declares_guard a : declares a (guard_line a) = true.
Proof. by destruct a. Qed.

Lemma guard_line_no_nl a : no_nl (guard_line a).
Proof. unfold no_nl. destruct a; decide_closed. Qed.

Lemma assigns_blank a : assigns a [] = false.
Proof. by destruct a. Qed.

Lemma issue_text_inj a b : issue_text a = issue_text b -> a = b.
Proof. by destruct a, b. Qed.

(** One turn of the second pass either appends the line, or (at an
    assignment to an array that needs a declaration and has none) appends
    the guard, a blank line and the line. *)
Lemma second_pass_line_cases needs p l :
  ((forall b, needs b && negb (declared p b) && assigns b l = false)
   /\ second_pass_line needs p l
      = {| declared := declared p; result := result p ++ [l];
           fixed := fixed p; self := self p |})
  \/ (exists b, needs b = true /\ declared p b = false /\ assigns b l = true
       /\ second_pass_line needs p l
          = {| declared := set_true b (declared p);
               result := result p ++ [guard_line b; []; l];
               fixed := true;
               self := {| issues := issues (self p) ++ [issue_text b];
                          fixes := fixes (self p) ++ [fix_text b] |} |}).
Proof.
  destruct p as [d r f v].
  destruct (assigns REPO_IDE_CONFIGS l) eqn:Ei;
  destruct (assigns REPO_CONFIGS l) eqn:Ec;
  destruct (assigns REPO_MODULES l) eqn:Em;
  try (by pose proof (assigns_exclusive _ _ _ Ei Ec));
  try (by pose proof (assigns_exclusive _ _ _ Ei Em));
  try (by pose proof (assigns_exclusive _ _ _ Ec Em));
  unfold second_pass_line, add_declaration; simpl;
  rewrite ?Ei, ?Ec, ?Em; simpl;
  destruct (needs REPO_IDE_CONFIGS) eqn:Ni;
  destruct (needs REPO_CONFIGS) eqn:Nc;
  destruct (needs REPO_MODULES) eqn:Nm;
  destruct (d REPO_IDE_CONFIGS) eqn:Di;
  destruct (d REPO_CONFIGS) eqn:Dc;
  destruct (d REPO_MODULES) eqn:Dm; simpl;
  repeat (progress
    (repeat match goal with
       | |- context [set_true ?a ?d ?b] =>
           change (set_true a d b) with (if array_eqb a b then true else d b)
       end;
     rewrite ?Ei, ?Ec, ?Em, ?Ni, ?Nc, ?Nm, ?Di, ?Dc, ?Dm; simpl));
  first
    [ left; split;
      [ intros []; by rewrite ?Ni, ?Nc, ?Nm, ?Di, ?Dc, ?Dm, ?Ei, ?Ec, ?Em
      | done ]
    | right; exists REPO_IDE_CONFIGS; rewrite <- app_assoc; by repeat split
    | right; exists REPO_CONFIGS; rewrite <- app_assoc; by repeat split
    | right; exists REPO_MODULES; rewrite <- app_assoc; by repeat split ].
Qed.

Lemma count_issue_snoc a b v fx :
  count_issue a {| issues := issues v ++ [issue_text b]; fixes := fx |}
  = count_issue a v + (if array_eqb a b then 1 else 0).
Proof.
  unfold count_issue; simpl. rewrite filter_app, length_app. f_equal.
  rewrite filter_cons, filter_nil.
  destruct (decide (issue_text b = issue_text a)) as [E|E].
  - apply issue_text_inj in E as ->. by destruct a.
  - destruct a, b; try done; by destruct E.
Qed.

(** When every array that needs a declaration has one, the second pass
    copies the lines and changes nothing else. *)
Lemma second_pass_quiet needs lines p :
  (forall a, needs a = true -> declared p a = true) ->
  fold_left (second_pass_line needs) lines p
  = {| declared := declared p; result := result p ++ lines;
       fixed := fixed p; self := self p |}.
Proof.
  revert p. induction lines as [|l lines IH]; intros p Hp; simpl.
  - rewrite app_nil_r. by destruct p.
  - destruct (second_pass_line_cases needs p l) as [[_ ->]|(b & Hn & Hd & _)].
    + rewrite IH by done. simpl. by rewrite <- app_assoc.
    + rewrite (Hp b Hn) in Hd. done.
Qed.

(** What the second pass appends to [result]: the lines, in their order,
    with guards and blank lines in between; and how [declared] moves. *)
Lemma second_pass_inv needs lines p :
  exists R,
    result (fold_left (second_pass_line needs) lines p) = result p ++ R
    /\ lines `sublist_of` R
    /\ (forall x, x ∈ R -> x ∈ lines \/ x = [] \/ exists b, x = guard_line b)
    /\ (forall b, declared (fold_left (second_pass_line needs) lines p) b = true ->
                  declared p b = true \/ guard_line b ∈ R)
    /\ (forall b, declared p b = true ->
                  declared (fold_left (second_pass_line needs) lines p) b = true)
    /\ (forall b, needs b = true -> existsb (assigns b) lines = true ->
                  declared (fold_left (second_pass_line needs) lines p) b = true)
    /\ (fixed p = true ->
        fixed (fold_left (second_pass_line needs) lines p) = true).
Proof.
  revert p. induction lines as [|l lines IH]; intros p.
  - exists []. simpl. rewrite app_nil_r. split_and!; try done.
    + by intros x ?%elem_of_nil.
    + intros b Hb. by left.
  - cbn [fold_left].
    destruct (IH (second_pass_line needs p l))
      as (R & HR & Hsub & Hin & Hd1 & Hd2 & Hd3 & Hf).
    destruct (second_pass_line_cases needs p l)
      as [[Hq E]|(c & Hn & Hd & Ha & E)]; rewrite E in *; simpl in *.
    + exists (l :: R). rewrite HR, <- app_assoc. split_and!.
      * done.
      * by constructor.
      * intros x [->|Hx]%elem_of_cons; [left; by left|].
        destruct (Hin x Hx) as [?|?]; [left; by right|by right].
      * intros b Hb. destruct (Hd1 b Hb) as [?|?]; [by left|right; by right].
      * done.
      * intros b Hb [Hl|Hl]%orb_true_iff; [|by apply Hd3].
        specialize (Hq b). rewrite Hb, Hl in Hq. apply Hd2.
        by destruct (declared p b).
      * done.
    + exists (guard_line c :: [] :: l :: R). rewrite HR, <- app_assoc.
      split_and!.
      * done.
      * by do 2 constructor; constructor.
      * intros x [->|[->|[->|Hx]%elem_of_cons]%elem_of_cons]%elem_of_cons.
        -- right; right; by exists c.
        -- right; by left.
        -- left; by left.
        -- destruct (Hin x Hx) as [?|?]; [left; by right|by right].
      * intros b Hb. destruct (Hd1 b Hb) as [Hs|?].
        -- unfold set_true in Hs. destruct (array_eqb c b) eqn:Ecb; [|by left].
           right. assert (c = b) as -> by by destruct c, b. by left.
        -- right. by do 3 right.
      * intros b Hb. apply Hd2. unfold set_true. rewrite Hb.
        by destruct (array_eqb c b).
      * intros b Hb [Hl|Hl]%orb_true_iff; [|by apply Hd3].
        apply Hd2. unfold set_true.
        rewrite (assigns_exclusive _ _ _ Ha Hl). by destruct b.
      * intros _. by apply Hf.
Qed.

(** Before the first assignment to an array without declaration the second
    pass records nothing about that array. *)
Lemma second_pass_before needs a lines p :
  declared p a = false ->
  Forall (fun x => assigns a x = false) lines ->
  declared (fold_left (second_pass_line needs) lines p) a = false
  /\ count_issue a (self (fold_left (second_pass_line needs) lines p))
     = count_issue a (self p).
Proof.
  revert p. induction lines as [|l lines IH]; intros p Hp Hl; [done|].
  inversion Hl as [|? ? Hl1 Hl2]; subst. cbn [fold_left].
  destruct (second_pass_line_cases needs p l)
    as [[Hq E]|(c & Hn & Hd & Ha & E)]; rewrite E.
  - destruct (IH {| declared := declared p; result := result p ++ [l];
                    fixed := fixed p; self := self p |}) as [H1 H2]; done.
  - assert (array_eqb a c = false) as Hac.
    { destruct a, c; try done; congruence. }
    match goal with |- context [fold_left _ _ ?q] =>
      destruct (IH q) as [H1 H2]; [|done|] end.
    + simpl. unfold set_true. destruct a, c; try done.
    + split; [done|]. rewrite H2. simpl. rewrite count_issue_snoc, Hac. lia.
Qed.

(** Once an array is declared the second pass records nothing more about
    it. *)
Lemma second_pass_after needs a lines p :
  declared p a = true ->
  count_issue a (self (fold_left (second_pass_line needs) lines p))
  = count_issue a (self p).
Proof.
  revert p. induction lines as [|l lines IH]; intros p Hp; [done|].
  cbn [fold_left].
  destruct (second_pass_line_cases needs p l)
    as [[Hq E]|(c & Hn & Hd & Ha & E)]; rewrite E.
  - by rewrite IH.
  - assert (array_eqb a c = false) as Hac.
    { destruct a, c; try done; congruence. }
    rewrite IH.
    + simpl. rewrite count_issue_snoc, Hac. lia.
    + simpl. unfold set_true. rewrite Hp. by destruct (array_eqb c a).
Qed.

End ValidatorFacts.

Section ValidatorTheorems.

Import Validator Spec.

Lemma spacing_loop_spec lines result fixed :
  spacing_loop lines result fixed = (result ++ lines, fixed).
Proof.
  revert result.
  induction lines as [|l lines IH]; intros result; cbn [spacing_loop].
  - by rewrite app_nil_r.
  - rewrite !IH, <- app_assoc. by repeat case_match.
Qed.

(** The section-spacing pass gives back the document it is given. *)
Lemma fix_section_spacing_spec config :
  _fix_section_spacing config = (config, false).
Proof.
  unfold _fix_section_spacing. rewrite spacing_loop_spec. simpl.
  by rewrite join_split.
Qed.

Lemma validate_and_fix_eq config v :
  validate_and_fix config v = _fix_missing_declarations config v.
Proof.
  unfold validate_and_fix.
  destruct (_fix_missing_declarations config v) as [[c f] v'].
  rewrite fix_section_spacing_spec. by destruct f.
Qed.

(** C7. The section-spacing pass of the validator gives back the document
    it is given, with the flag [False]; so the whole of [validate_and_fix],
    document, flag and recorded issues, is that of the missing-declaration
    pass alone. *)
Theorem section_spacing_noop config v :
  _fix_section_spacing config = (config, false)
  /\ validate_and_fix config v = _fix_missing_declarations config v.
Proof.
  split; [apply fix_section_spacing_spec|apply validate_and_fix_eq].
Qed.

Lemma declares_of_guard a l : contains (guard_line a) l = true -> declares a l = true.
Proof.
  unfold declares. apply contains_trans. by destruct a.
Qed.

Lemma existsb_impl {A} (f g : A -> bool) l :
  (forall x, f x = true -> g x = true) ->
  existsb f l = true -> existsb g l = true.
Proof.
  intros H [x [Hx Hf]]%existsb_exists. apply existsb_exists.
  exists x. split; [done|]. by apply H.
Qed.

(** A document in which every array that is assigned to is declared comes
    back unchanged, without issue. *)
Lemma declared_noop config v :
  (forall a, existsb (assigns a) (split_nl config) = true ->
             existsb (declares a) (split_nl config) = true) ->
  validate_and_fix config v = (config, false, v).
Proof.
  intros H. rewrite validate_and_fix_eq.
  unfold _fix_missing_declarations.
  destruct (first_pass (split_nl config)) as [needs d0] eqn:E.
  rewrite second_pass_quiet; simpl.
  - rewrite join_split. by destruct v.
  - intros a Ha. destruct (first_pass_spec (split_nl config) a) as [H1 H2].
    rewrite E in H1, H2. simpl in *. rewrite H2. apply H. by rewrite <- H1.
Qed.

(** C8. When the three declaration guards are already in the document,
    [validate_and_fix] reports no issue and gives the document back as it
    is. *)
Theorem clean_input_noop config v :
  (forall a, has_guard_line a (split_nl config) = true) ->
  validate_and_fix config v = (config, false, v).
Proof.
  intros H. apply declared_noop. intros a _.
  apply (existsb_impl (contains (guard_line a))); [|apply H].
  apply declares_of_guard.
Qed.

Lemma clean_input_noop_witness :
  let config :=
    join_nl (map guard_line array_names ++ [txt "REPO_CONFIGS[acmd]=build"]) in
  validate_and_fix config fresh = (config, false, fresh).
Proof.
  intros config. apply (clean_input_noop config fresh).
  intros a. destruct a; vm_compute; reflexivity.
Defined.

(** What the missing-declaration pass gives, in terms of lines. *)
Lemma fix_missing_lines config v :
  exists R p,
    _fix_missing_declarations config v = (join_nl R, fixed p, self p)
    /\ p = fold_left (second_pass_line (first_pass (split_nl config)).1)
             (split_nl config)
             {| declared := (first_pass (split_nl config)).2; result := [];
                fixed := false; self := v |}
    /\ result p = R
    /\ split_nl (join_nl R) = R.
Proof.
  unfold _fix_missing_declarations.
  destruct (first_pass (split_nl config)) as [needs d0]. simpl.
  eexists _, _. split; [reflexivity|]. split; [reflexivity|].
  split; [reflexivity|].
  match goal with |- context [fold_left ?f ?l ?p] =>
    destruct (second_pass_inv needs l p) as (R & HR & Hsub & Hin & _) end.
  simpl in HR. rewrite HR. apply split_join.
  - intros ->. apply sublist_nil_r in Hsub. by apply split_nl_nonempty in Hsub.
  - apply Forall_forall. intros x Hx.
    destruct (Hin x Hx) as [Hl|[->|[b ->]]].
    + pose proof (split_nl_no_nl config) as Hall.
      rewrite Forall_forall in Hall. by apply Hall.
    + unfold no_nl. by intros ?%elem_of_nil.
    + apply guard_line_no_nl.
Qed.

(** C9. The lines of the document [validate_and_fix] returns contain the
    lines of the input, each as it was and in the same order: lines are only
    inserted. *)
Theorem validator_only_inserts config v :
  split_nl config `sublist_of` split_nl (validate_and_fix config v).1.1.
Proof.
  rewrite validate_and_fix_eq.
  destruct (fix_missing_lines config v) as (R & p & -> & Hp & HR & Hsplit).
  simpl. rewrite Hsplit, <- HR, Hp.
  match goal with |- context [fold_left ?f ?l ?p] =>
    destruct (second_pass_inv (first_pass (split_nl config)).1 l p)
      as (R' & HR' & Hsub & _) end.
  simpl in HR'. by rewrite HR'.
Qed.

Lemma existsb_first {A} (f : A -> bool) l :
  existsb f l = true ->
  exists pre x post,
    l = pre ++ x :: post /\ Forall (fun y => f y = false) pre /\ f x = true.
Proof.
  induction l as [|y l IH]; simpl; [done|].
  destruct (f y) eqn:Ey; simpl.
  - intros _. by exists [], y, l.
  - intros H. destruct (IH H) as (pre & x & post & -> & Hpre & Hx).
    exists (y :: pre), x, post. split_and!; [done| |done]. by constructor.
Qed.

Lemma existsb_false_Forall {A} (f : A -> bool) l :
  existsb f l = false -> Forall (fun y => f y = false) l.
Proof.
  induction l as [|y l IH]; simpl; [done|].
  intros [? ?]%orb_false_iff. constructor; [done|by apply IH].
Qed.

(** C2, with "no declaration" read as the code reads it (no line holds
    [declare -gA NAME], guarded or not).  When an array is assigned to and
    no line declares it, [validate_and_fix] puts the guard and a blank line
    right before the first assignment to the array, records the issue of
    the array once, returns [had_issues = True]; and a second run on the
    document it returns reports nothing and changes nothing. *)
Theorem missing_declaration_inserted config a :
  existsb (assigns a) (split_nl config) = true ->
  existsb (declares a) (split_nl config) = false ->
  exists out v,
    validate_and_fix config fresh = (out, true, v)
    /\ count_issue a v = 1
    /\ (exists pre l post pre' post',
          split_nl config = pre ++ l :: post
          /\ Forall (fun x => assigns a x = false) pre
          /\ assigns a l = true
          /\ split_nl out = pre' ++ guard_line a :: [] :: l :: post'
          /\ Forall (fun x => assigns a x = false) pre')
    /\ validate_and_fix out fresh = (out, false, fresh).
Proof.
  intros Hneeds Hdecl.
  rewrite validate_and_fix_eq.
  destruct (fix_missing_lines config fresh) as (R & p & -> & Hp & HR & Hsplit).
  destruct (first_pass_spec (split_nl config) a) as [Hn1 Hd1].
  set (needs := (first_pass (split_nl config)).1) in *.
  set (d0 := (first_pass (split_nl config)).2) in *.
  destruct (existsb_first _ _ Hneeds) as (pre & l & post & Hlines & Hpre & Hl).
  rewrite Hlines, fold_left_app in Hp. cbn [fold_left] in Hp.
  set (p0 := {| declared := d0; result := []; fixed := false; self := fresh |})
    in *.
  set (p1 := fold_left (second_pass_line needs) pre p0) in *.
  destruct (second_pass_before needs a pre p0) as [Hd_p1 Hc_p1];
    [simpl; congruence|done|]. fold p1 in Hd_p1, Hc_p1.
  destruct (second_pass_inv needs pre p0) as (R1 & HR1 & _ & Hin1 & _).
  fold p1 in HR1. simpl in HR1.
  destruct (second_pass_line_cases needs p1 l)
    as [[Hq _]|(c & Hnc & Hdc & Hac & E)].
  { specialize (Hq a). rewrite Hn1, Hneeds, Hd_p1, Hl in Hq. done. }
  assert (c = a) as -> by (by apply (assigns_exclusive _ _ l)).
  set (p2 := second_pass_line needs p1 l) in *.
  destruct (second_pass_inv needs post p2)
    as (R3 & HR3 & _ & _ & _ & _ & _ & Hfix).
  pose proof (second_pass_after needs a post p2) as Hc_p3.
  rewrite <- Hp in HR3, Hfix, Hc_p3.
  rewrite E in HR3, Hfix, Hc_p3. simpl in HR3, Hfix, Hc_p3.
  rewrite count_issue_snoc in Hc_p3.
  exists (join_nl R), (self p). split_and!.
  - by rewrite Hfix.
  - rewrite Hc_p3.
    + rewrite Hc_p1. by destruct a.
    + unfold set_true. by destruct a.
  - exists pre, l, post, R1, R3. split_and!; try done.
    + rewrite Hsplit, <- HR, HR3, HR1, <- app_assoc. done.
    + apply Forall_forall. intros x Hx.
      destruct (Hin1 x Hx) as [Hxl|[->|[b ->]]].
      * rewrite Forall_forall in Hpre. by apply Hpre.
      * apply assigns_blank.
      * apply assigns_guard.
  - apply declared_noop. intros b Hb. rewrite Hsplit.
    rewrite Hsplit in Hb.
    destruct (second_pass_inv needs (split_nl config) p0)
      as (R' & HR' & Hsub & Hin & Hdec & _ & Hall & _).
    assert (R' = R) as ->.
    { rewrite Hlines, fold_left_app in HR'. rewrite <- HR, Hp.
      symmetry. exact HR'. }
    assert (needs b = true) as Hnb.
    { unfold needs. rewrite (proj1 (first_pass_spec (split_nl config) b)).
      apply existsb_exists in Hb as (x & Hx & Hxb).
      apply existsb_exists.
      destruct (Hin x (proj2 (list_elem_of_In _ _) Hx)) as [Hxl|[->|[e ->]]].
      - exists x. split; [by apply list_elem_of_In|done].
      - by rewrite assigns_blank in Hxb.
      - by rewrite assigns_guard in Hxb. }
    destruct (first_pass_spec (split_nl config) b) as [Hnb1 Hdb1].
    fold needs in Hnb1. fold d0 in Hdb1.
    destruct (Hdec b) as [Hd|Hg].
    + apply Hall; [done|]. by rewrite <- Hnb1.
    + simpl in Hd. rewrite Hdb1 in Hd.
      apply existsb_exists in Hd as (x & Hx & Hxd).
      apply existsb_exists. exists x. split; [|done].
      apply list_elem_of_In. apply (sublist_subseteq _ _ Hsub).
      by apply list_elem_of_In.
    + apply existsb_exists. exists (guard_line b).
      split; [by apply list_elem_of_In|apply declares_guard].
Qed.

Lemma missing_declaration_inserted_witness :
  exists out v,
    validate_and_fix undeclared_config fresh = (out, true, v)
    /\ count_issue REPO_CONFIGS v = 1
    /\ (exists pre l post pre' post',
          split_nl undeclared_config = pre ++ l :: post
          /\ Forall (fun x => assigns REPO_CONFIGS x = false) pre
          /\ assigns REPO_CONFIGS l = true
          /\ split_nl out = pre' ++ guard_line REPO_CONFIGS :: [] :: l :: post'
          /\ Forall (fun x => assigns REPO_CONFIGS x = false) pre')
    /\ validate_and_fix out fresh = (out, false, fresh).
Proof.
  apply (missing_declaration_inserted undeclared_config REPO_CONFIGS);
    vm_compute; reflexivity.
Defined.

(** C2 as it is worded fails: a document may declare an array without the
    guard line.  Here REPO_CONFIGS is assigned to, no line holds its guard,
    and [validate_and_fix] inserts nothing and reports nothing. *)
Lemma missing_guard_counterexample :
  existsb (assigns REPO_CONFIGS) (split_nl unguarded_config) = true
  /\ has_guard_line REPO_CONFIGS (split_nl unguarded_config) = false
  /\ validate_and_fix unguarded_config fresh = (unguarded_config, false, fresh).
Proof. vm_compute. done. Qed.

(** The scenario of three unguarded arrays: three issues, in the order the
    first assignments are met. *)
Lemma three_missing_declarations :
  (validate_and_fix undeclared_config fresh).1.2 = true
  /\ issues (validate_and_fix undeclared_config fresh).2
     = [issue_text REPO_IDE_CONFIGS; issue_text REPO_CONFIGS;
        issue_text REPO_MODULES]
  /\ split_nl (validate_and_fix undeclared_config fresh).1.1
     = [txt "#!/usr/bin/env zsh";
        guard_line REPO_IDE_CONFIGS; [];
        Normalizer.q "REPO_IDE_CONFIGS[acmd]=`android-studio||`";
        guard_line REPO_CONFIGS; [];
        Normalizer.q "REPO_CONFIGS[acmd]=`build|test|lint`";
        Normalizer.q "REPO_CONFIGS[icmd]=`build|test|lint`";
        guard_line REPO_MODULES; [];
        Normalizer.q "REPO_MODULES[acmd]=`core feature`"].
Proof. vm_compute. done. Qed.

End ValidatorTheorems.

(** ** The extraction *)

Section ExtractFacts.

Import Normalizer Spec.

Lemma strip_prefix_spec p s t : strip_prefix p s = Some t <-> s = p ++ t.
Proof.
  revert s. induction p as [|a p IH]; intros s; simpl.
  - split; congruence.
  - destruct s as [|b s]; [done|].
    destruct (Ascii.eqb_spec a b) as [->|Hab].
    + rewrite IH. split; congruence.
    + split; congruence.
Qed.

Lemma strip_prefix_None p s :
  starts_with p s = false -> strip_prefix p s = None.
Proof.
  revert s. induction p as [|a p IH]; intros s; simpl; [done|].
  destruct s as [|b s]; [done|].
  destruct (Ascii.eqb a b); simpl; [apply IH|done].
Qed.

Lemma strip_prefix_Some p s t :
  strip_prefix p s = Some t -> starts_with p s = true.
Proof. intros ->%strip_prefix_spec. apply starts_with_app. Qed.

Lemma take_drop_until c s : take_until c s ++ drop_until c s = s.
Proof.
  induction s as [|x s IH]; simpl; [done|].
  destruct (Ascii.eqb x c); simpl; [done|]. by rewrite IH.
Qed.

Lemma take_until_notin c s : c ∉ take_until c s.
Proof.
  induction s as [|x s IH]; simpl; [by intros ?%elem_of_nil|].
  destruct (Ascii.eqb_spec x c) as [->|Hx]; [by intros ?%elem_of_nil|].
  intros [?|?]%elem_of_cons; [congruence|done].
Qed.

Lemma drop_until_head c s :
  drop_until c s = [] \/ exists r, drop_until c s = c :: r.
Proof.
  induction s as [|x s IH]; simpl; [by left|].
  destruct (Ascii.eqb_spec x c) as [->|Hx]; [right; by eexists|done].
Qed.

Lemma take_until_app c k r : c ∉ k -> take_until c (k ++ c :: r) = k.
Proof.
  induction k as [|x k IH]; simpl; intros Hk.
  - by rewrite Ascii.eqb_refl.
  - apply not_elem_of_cons in Hk as [Hx Hk].
    destruct (Ascii.eqb_spec x c) as [->|_]; [done|]. by rewrite IH.
Qed.

Lemma drop_until_app c k r : c ∉ k -> drop_until c (k ++ c :: r) = c :: r.
Proof.
  induction k as [|x k IH]; simpl; intros Hk.
  - by rewrite Ascii.eqb_refl.
  - apply not_elem_of_cons in Hk as [Hx Hk].
    destruct (Ascii.eqb_spec x c) as [->|_]; [done|]. by rewrite IH.
Qed.

Lemma take_until_all c k : c ∉ k -> take_until c k = k.
Proof.
  induction k as [|x k IH]; simpl; intros Hk; [done|].
  apply not_elem_of_cons in Hk as [Hx Hk].
  destruct (Ascii.eqb_spec x c) as [->|_]; [done|]. by rewrite IH.
Qed.

(** A match of the entry pattern is a text of the shape
    NAME, bracket, key, bracket, equals, quote, value, quote. *)
Lemma match_entry_spec name s k v n :
  match_entry name s = Some (k, v, n) <->
  (exists rest, s = format_entry name (k, v) ++ rest)
  /\ (k <> []) /\ (RB ∉ k) /\ (DQ ∉ v)
  /\ n = length (format_entry name (k, v)).
Proof.
  unfold match_entry, format_entry. cbn [fst snd]. split.
  - destruct (strip_prefix (name ++ txt "[") s) as [s1|] eqn:E1; [|done].
    apply strip_prefix_spec in E1 as ->.
    pose proof (take_drop_until RB s1) as Hs1.
    pose proof (take_until_notin RB s1) as Hk.
    destruct (take_until RB s1) as [|c key] eqn:Ek; [done|].
    destruct (strip_prefix (q "]=`") (drop_until RB s1)) as [s3|] eqn:E3;
      [|done].
    apply strip_prefix_spec in E3. rewrite E3 in Hs1.
    pose proof (take_drop_until DQ s3) as Hs3.
    pose proof (take_until_notin DQ s3) as Hv.
    destruct (drop_until_head DQ s3) as [Hd|[r Hd]]; rewrite Hd; [done|].
    intros [= <- <- <-]. rewrite Hd in Hs3.
    set (tv := take_until DQ s3) in *. clearbody tv. subst s3 s1.
    split_and!; try done.
    + exists r. rewrite <- !app_assoc. reflexivity.
    + rewrite !length_app. change (length (q "]=`")) with 3.
      change (length (q "`")) with 1. change (length (txt "[")) with 1.
      simpl. lia.
  - intros ([rest ->] & Hk & Hrb & Hdq & ->).
    rewrite <- !app_assoc.
    replace (name ++ txt "[" ++ k ++ q "]=`" ++ v ++ q "`" ++ rest)
      with ((name ++ txt "[") ++ k ++ RB :: txt "=" ++ DQ :: v ++ DQ :: rest)
      by (by rewrite <- !app_assoc).
    destruct (strip_prefix ((name ++ txt "[")) _) as [s1|] eqn:E1.
    2:{ pose proof (proj2 (strip_prefix_spec (name ++ txt "[")
          ((name ++ txt "[") ++ k ++ RB :: txt "=" ++ DQ :: v ++ DQ :: rest)
          _) eq_refl) as H. congruence. }
    apply strip_prefix_spec, app_inv_head in E1 as <-.
    rewrite take_until_app, drop_until_app by done.
    destruct k as [|c k]; [done|]. simpl.
    rewrite take_until_app, drop_until_app by done.
    do 2 f_equal. rewrite !length_app. simpl. rewrite !length_app. simpl.
    rewrite length_app. change (length (q "`")) with 1. lia.
Qed.

Lemma no_nl_cons c l : no_nl (c :: l) <-> c <> NL /\ no_nl l.
Proof.
  unfold no_nl. rewrite not_elem_of_cons.
  split; (intros [H1 H2]; split; [intros E; apply H1; by rewrite E|done]).
Qed.

Lemma no_nl_app l1 l2 : no_nl (l1 ++ l2) <-> no_nl l1 /\ no_nl l2.
Proof. unfold no_nl. by rewrite not_elem_of_app. Qed.

Lemma no_nl_nil : no_nl [].
Proof. unfold no_nl. by intros ?%elem_of_nil. Qed.

(** A text without line feed that is no prefix of a line is no prefix of
    the line and what follows it either. *)
Lemma starts_with_line p l s :
  no_nl p -> starts_with p l = false -> starts_with p (l ++ NL :: s) = false.
Proof.
  revert l. induction p as [|a p IH]; intros l Hp H; simpl in *; [done|].
  apply no_nl_cons in Hp as [Ha Hp].
  destruct l as [|b l]; simpl.
  - destruct (Ascii.eqb_spec a NL); [done|done].
  - destruct (Ascii.eqb a b); simpl in *; [by apply IH|done].
Qed.

Lemma search_simple_eq var bol s :
  search_simple var bol s =
  match (if bol then strip_prefix (var ++ txt "=") s else None) with
  | Some v => Some (take_until NL v)
  | None =>
      match s with
      | [] => None
      | c :: s' => search_simple var (Ascii.eqb c NL) s'
      end
  end.
Proof. by destruct s. Qed.

Lemma search_inside var l s :
  no_nl l -> search_simple var false (l ++ NL :: s) = search_simple var true s.
Proof.
  induction l as [|c l IH]; intros Hl.
  - by rewrite search_simple_eq.
  - apply no_nl_cons in Hl as [Hc Hl]. rewrite search_simple_eq. simpl.
    destruct (Ascii.eqb_spec c NL); [done|]. by apply IH.
Qed.

Lemma search_inside_last var l : no_nl l -> search_simple var false l = None.
Proof.
  induction l as [|c l IH]; intros Hl; [done|].
  apply no_nl_cons in Hl as [Hc Hl]. rewrite search_simple_eq. simpl.
  destruct (Ascii.eqb_spec c NL); [done|]. by apply IH.
Qed.

(** The search as a walk over lines: the value is what follows [VAR=] on
    the first line that starts with it. *)
Lemma search_join var ls :
  no_nl var -> Forall no_nl ls ->
  search_simple var true (join_nl ls)
  = head (omap (strip_prefix (var ++ txt "=")) ls).
Proof.
  intros Hvar. assert (no_nl (var ++ txt "=")) as Hp.
  { apply no_nl_app. split; [done|]. decide_closed. }
  induction ls as [|l ls IH]; intros Hls.
  { rewrite search_simple_eq. by destruct var. }
  inversion Hls as [|? ? Hl Hls']; subst.
  cbn [omap list_omap].
  destruct (strip_prefix (var ++ txt "=") l) as [v|] eqn:E.
  - apply strip_prefix_spec in E as ->.
    apply no_nl_app in Hl as [_ Hv]. simpl.
    destruct ls as [|l' ls]; cbn [join_nl]; rewrite search_simple_eq.
    + rewrite (proj2 (strip_prefix_spec _ _ v) eq_refl).
      by rewrite take_until_all.
    + rewrite <- app_assoc.
      rewrite (proj2 (strip_prefix_spec _ _ (v ++ NL :: join_nl (l' :: ls)))
                 eq_refl).
      by rewrite take_until_app.
  - assert (starts_with (var ++ txt "=") l = false) as Hsw.
    { destruct (starts_with (var ++ txt "=") l) eqn:Es; [|done].
      apply starts_with_inv in Es as [t ->].
      by rewrite (proj2 (strip_prefix_spec _ _ t) eq_refl) in E. }
    destruct ls as [|l' ls]; cbn [join_nl].
    + rewrite search_simple_eq, E. destruct l as [|c l]; [done|].
      apply no_nl_cons in Hl as [Hc Hl]. destruct (Ascii.eqb_spec c NL); [done|].
      by apply search_inside_last.
    + rewrite <- IH by done. rewrite search_simple_eq.
      rewrite (strip_prefix_None _ _ (starts_with_line _ _ _ Hp Hsw)).
      destruct l as [|c l]; simpl.
      * done.
      * apply no_nl_cons in Hl as [Hc Hl].
        destruct (Ascii.eqb_spec c NL); [done|]. by apply search_inside.
Qed.

Lemma simple_vars_no_nl var : var ∈ simple_vars -> no_nl var.
Proof.
  unfold simple_vars. rewrite !elem_of_cons, elem_of_nil.
  intros [->|[->|[->|[->|[]]]]]; decide_closed.
Qed.

(** The [simple] dict holds, for each of the four names in their order,
    what the search finds. *)
Lemma extract_simple_spec config :
  extract_simple config
  = omap (fun var => pair var <$> search_simple var true config) simple_vars.
Proof.
  unfold extract_simple, simple_vars. cbn [fold_left omap list_omap].
  destruct (search_simple (txt "GIT_USERNAME") true config);
  destruct (search_simple (txt "BRANCH_PREFIX") true config);
  destruct (search_simple (txt "BASE_DEV_PATH") true config);
  destruct (search_simple (txt "CONFIG_VERSION") true config);
  reflexivity.
Qed.

Lemma dict_get_extract_simple config var :
  var ∈ simple_vars ->
  dict_get var (extract_simple config) = search_simple var true config.
Proof.
  rewrite extract_simple_spec. unfold simple_vars.
  rewrite !elem_of_cons, elem_of_nil. cbn [omap list_omap].
  intros [->|[->|[->|[->|[]]]]];
  destruct (search_simple (txt "GIT_USERNAME") true config);
  destruct (search_simple (txt "BRANCH_PREFIX") true config);
  destruct (search_simple (txt "BASE_DEV_PATH") true config);
  destruct (search_simple (txt "CONFIG_VERSION") true config);
  reflexivity.
Qed.

(** C6. When a known simple variable is assigned on several lines, the
    extraction keeps the value of the first of them: whatever follows, the
    value is the rest of the first line that starts with [NAME=]. *)
Theorem first_match_wins config var pre v post :
  var ∈ simple_vars ->
  split_nl config = pre ++ (var ++ txt "=" ++ v) :: post ->
  Forall (fun l => starts_with (var ++ txt "=") l = false) pre ->
  dict_get var (simple (_extract_user_values config)) = Some v.
Proof.
  intros Hvar Hsplit Hpre. cbn [_extract_user_values simple].
  rewrite dict_get_extract_simple by done.
  rewrite <- (join_split config) at 1.
  rewrite search_join; [|by apply simple_vars_no_nl|apply split_nl_no_nl].
  rewrite Hsplit. clear Hsplit.
  induction pre as [|l pre IH]; cbn [app omap list_omap].
  - rewrite app_assoc.
    by rewrite (proj2 (strip_prefix_spec _ _ v) eq_refl).
  - inversion Hpre as [|? ? Hl Hpre']; subst.
    rewrite (strip_prefix_None _ _ Hl). by apply IH.
Qed.

Lemma first_match_wins_witness :
  dict_get (txt "GIT_USERNAME")
    (simple (_extract_user_values
       (join_nl [txt "# settings"; txt "GIT_USERNAME=alice";
                 txt "BRANCH_PREFIX=x"; txt "GIT_USERNAME=bob"])))
  = Some (txt "alice").
Proof.
  apply (first_match_wins _ (txt "GIT_USERNAME") [txt "# settings"]
           (txt "alice") [txt "BRANCH_PREFIX=x"; txt "GIT_USERNAME=bob"]).
  - unfold simple_vars. by left.
  - reflexivity.
  - by repeat constructor.
Defined.

Lemma findall_from_eq name skip bol s :
  findall_from name skip bol s =
  match s with
  | [] => []
  | c :: s' =>
      match skip with
      | S n => findall_from name n (Ascii.eqb c NL) s'
      | O =>
          match (if bol then match_entry name s else None) with
          | Some (key, value, len) =>
              (key, value) :: findall_from name (pred len) (Ascii.eqb c NL) s'
          | None => findall_from name 0 (Ascii.eqb c NL) s'
          end
      end
  end.
Proof. by destruct s. Qed.

(** Inside a line, past its start, nothing matches up to the line feed. *)
Lemma findall_inside name l n b s :
  no_nl l -> n <= length l -> (n = 0 -> b = false) ->
  findall_from name n b (l ++ NL :: s) = findall_from name 0 true s.
Proof.
  revert n b. induction l as [|c l IH]; intros n b Hl Hn Hb.
  - simpl in Hn. assert (n = 0) as -> by lia. by rewrite (Hb eq_refl).
  - apply no_nl_cons in Hl as [Hc Hl]. rewrite findall_from_eq.
    cbn [app]. destruct (Ascii.eqb_spec c NL) as [|_]; [done|].
    destruct n as [|n].
    + rewrite (Hb eq_refl). apply IH; [done|lia|done].
    + apply IH; [done|simpl in Hn; lia|done].
Qed.

Lemma findall_inside_last name l n b :
  no_nl l -> n <= length l -> (n = 0 -> b = false) ->
  findall_from name n b l = [].
Proof.
  revert n b. induction l as [|c l IH]; intros n b Hl Hn Hb; [done|].
  apply no_nl_cons in Hl as [Hc Hl]. rewrite findall_from_eq.
  destruct (Ascii.eqb_spec c NL) as [|_]; [done|].
  destruct n as [|n].
  - rewrite (Hb eq_refl). apply IH; [done|lia|done].
  - apply IH; [done|simpl in Hn; lia|done].
Qed.

Lemma match_entry_None name s :
  starts_with (name ++ txt "[") s = false -> match_entry name s = None.
Proof. intros H. unfold match_entry. by rewrite (strip_prefix_None _ _ H). Qed.

Lemma match_entry_starts_with name s r :
  match_entry name s = Some r -> starts_with (name ++ txt "[") s = true.
Proof.
  destruct (starts_with (name ++ txt "[") s) eqn:E; [done|].
  by rewrite (match_entry_None _ _ E).
Qed.

Lemma match_entry_app name l t r :
  match_entry name l = Some r -> match_entry name (l ++ t) = Some r.
Proof.
  destruct r as [[k v] n]. intros ([rest ->] & ? & ? & ? & ->)%match_entry_spec.
  apply match_entry_spec. split_and!; try done.
  exists (rest ++ t). by rewrite <- app_assoc.
Qed.

Lemma format_entry_length name kv : 1 <= length (format_entry name kv).
Proof. unfold format_entry. rewrite !length_app. simpl. lia. Qed.

Lemma findall_from_skip name pre c rest b :
  findall_from name (S (length pre)) b (pre ++ c :: rest)
  = findall_from name 0 (Ascii.eqb c NL) rest.
Proof.
  revert b. induction pre as [|x pre IH]; intros b.
  - cbn [app length]. by rewrite findall_from_eq.
  - cbn [app length]. rewrite findall_from_eq. apply IH.
Qed.

(** After a match the search goes on right behind it, inside a line. *)
Lemma findall_resume name s k v n :
  match_entry name s = Some (k, v, n) ->
  findall_from name 0 true s
  = (k, v) :: findall_from name 0 false (drop n s).
Proof.
  intros E. pose proof E as ([rest ->] & _ & _ & _ & ->)%match_entry_spec.
  rewrite drop_app_length.
  remember (format_entry name (k, v)) as f eqn:Hf.
  assert (exists c0 pre, f = c0 :: pre ++ [DQ]) as (c0 & pre & ->).
  { subst f. unfold format_entry. cbn [fst snd].
    destruct name as [|c0 name].
    - exists "["%char, (k ++ q "]=`" ++ v). cbn [app txt list_ascii_of_string].
      by rewrite <- !app_assoc.
    - exists c0, (name ++ txt "[" ++ k ++ q "]=`" ++ v). cbn [app].
      by rewrite <- !app_assoc. }
  cbn [app] in *. rewrite findall_from_eq, E. f_equal.
  rewrite <- app_assoc. cbn [length pred app].
  rewrite length_app. cbn [length]. rewrite Nat.add_1_r.
  apply findall_from_skip.
Qed.

Lemma findall_entry_line name l k v n s :
  no_nl l -> match_entry name l = Some (k, v, n) ->
  findall_from name 0 true (l ++ NL :: s) = (k, v) :: findall_from name 0 true s.
Proof.
  intros Hl E.
  pose proof E as ([rest Hrest] & _ & _ & _ & Hn)%match_entry_spec.
  pose proof (format_entry_length name (k, v)) as Hlen.
  assert (n <= length l) as Hnl by (rewrite Hrest, length_app; lia).
  pose proof (match_entry_app _ _ (NL :: s) _ E) as E'.
  destruct l as [|c l]; [simpl in Hnl; lia|].
  apply no_nl_cons in Hl as [Hc Hl]. cbn [app] in *.
  rewrite findall_from_eq, E'.
  destruct (Ascii.eqb_spec c NL) as [|_]; [done|].
  rewrite findall_inside; [done|done|simpl in Hnl; lia|done].
Qed.

Lemma findall_entry_last name l k v n :
  no_nl l -> match_entry name l = Some (k, v, n) ->
  findall_from name 0 true l = [(k, v)].
Proof.
  intros Hl E.
  pose proof E as ([rest Hrest] & _ & _ & _ & Hn)%match_entry_spec.
  pose proof (format_entry_length name (k, v)) as Hlen.
  assert (n <= length l) as Hnl by (rewrite Hrest, length_app; lia).
  destruct l as [|c l]; [simpl in Hnl; lia|].
  apply no_nl_cons in Hl as [Hc Hl].
  rewrite findall_from_eq, E.
  destruct (Ascii.eqb_spec c NL) as [|_]; [done|].
  rewrite findall_inside_last; [done|done|simpl in Hnl; lia|done].
Qed.

Lemma findall_plain_line name l s :
  no_nl name -> no_nl l -> starts_with (name ++ txt "[") l = false ->
  findall_from name 0 true (l ++ NL :: s) = findall_from name 0 true s.
Proof.
  intros Hname Hl H. assert (no_nl (name ++ txt "[")) as Hp.
  { apply no_nl_app. split; [done|]. decide_closed. }
  pose proof (match_entry_None _ _ (starts_with_line _ _ s Hp H)) as E.
  destruct l as [|c l]; cbn [app] in *; rewrite findall_from_eq, E.
  - by rewrite Ascii.eqb_refl.
  - apply no_nl_cons in Hl as [Hc Hl].
    destruct (Ascii.eqb_spec c NL) as [|_]; [done|].
    apply findall_inside; [done|lia|done].
Qed.

Lemma findall_plain_last name l :
  no_nl l -> starts_with (name ++ txt "[") l = false ->
  findall_from name 0 true l = [].
Proof.
  intros Hl H. pose proof (match_entry_None _ _ H) as E.
  destruct l as [|c l]; [done|]. rewrite findall_from_eq, E.
  apply no_nl_cons in Hl as [Hc Hl].
  destruct (Ascii.eqb_spec c NL) as [|_]; [done|].
  apply findall_inside_last; [done|lia|done].
Qed.

(** The matches of a document whose table lines each hold a whole entry are
    the entries of its lines. *)
Lemma findall_join name ls :
  no_nl name -> Forall no_nl ls ->
  Forall (fun l => entry_closed name l = true) ls ->
  findall name (join_nl ls) = omap (line_entry name) ls.
Proof.
  intros Hname. unfold findall.
  induction ls as [|l ls IH]; intros Hls Hcl; [done|].
  inversion Hls as [|? ? Hl Hls']; subst.
  inversion Hcl as [|? ? Hc Hcl']; subst.
  cbn [omap list_omap]. unfold line_entry at 1. unfold entry_closed in Hc.
  destruct ls as [|l' ls].
  - cbn [join_nl omap list_omap].
    destruct (match_entry name l) as [[[k v] n]|] eqn:E.
    + by apply (findall_entry_last _ _ _ _ n).
    + apply negb_true_iff in Hc. by apply findall_plain_last.
  - change (join_nl (l :: l' :: ls)) with (l ++ NL :: join_nl (l' :: ls)).
    destruct (match_entry name l) as [[[k v] n]|] eqn:E.
    + rewrite (findall_entry_line _ _ _ _ n) by done. f_equal. by apply IH.
    + apply negb_true_iff in Hc. rewrite findall_plain_line by done.
      by apply IH.
Qed.

(** What [findall] returns: keys that are not empty and hold no closing
    bracket, values that hold no double quote. *)
Lemma findall_from_wf name n b s :
  Forall (fun kv => (kv.1 <> []) /\ (RB ∉ kv.1) /\ (DQ ∉ kv.2))
         (findall_from name n b s).
Proof.
  revert n b. induction s as [|c s IH]; intros n b; [done|].
  rewrite findall_from_eq. destruct n as [|n]; [|apply IH].
  destruct b; [|apply IH].
  destruct (match_entry name (c :: s)) as [[[k v] len]|] eqn:E; [|apply IH].
  apply match_entry_spec in E as (_ & ? & ? & ? & _).
  constructor; [done|apply IH].
Qed.

Lemma table_names_no_nl name : name ∈ table_names -> no_nl name.
Proof.
  unfold table_names. rewrite !elem_of_cons, elem_of_nil.
  intros [->|[->|[->|[->|[]]]]]; decide_closed.
Qed.

(** A comment line holds no value of a simple variable and no entry. *)
Lemma comment_no_simple var l :
  var ∈ simple_vars -> comment_line l = true ->
  strip_prefix (var ++ txt "=") l = None.
Proof.
  intros Hvar [t ->]%starts_with_inv. revert Hvar. unfold simple_vars.
  rewrite !elem_of_cons, elem_of_nil. by intros [->|[->|[->|[->|[]]]]].
Qed.

Lemma comment_no_entry name l :
  name ∈ table_names -> comment_line l = true -> line_entry name l = None.
Proof.
  intros Hname [t ->]%starts_with_inv. unfold line_entry.
  rewrite match_entry_None; [done|]. revert Hname. unfold table_names.
  rewrite !elem_of_cons, elem_of_nil. by intros [->|[->|[->|[->|[]]]]].
Qed.

Lemma omap_filter_None {A B} (f : A -> option B) (g : A -> bool) (l : list A) :
  (forall x, g x = true -> f x = None) ->
  omap f (filter (fun x => g x = false) l) = omap f l.
Proof.
  intros H. induction l as [|x l IH]; [done|].
  rewrite filter_cons. destruct (g x) eqn:E.
  - rewrite decide_False by done. cbn [omap list_omap].
    by rewrite (H x E).
  - rewrite decide_True by done. cbn [omap list_omap]. by rewrite IH.
Qed.

Lemma without_comments_lines config :
  let ls := filter (fun l => comment_line l = false) (split_nl config) in
  Forall no_nl ls
  /\ (forall name, entries_closed config ->
        name ∈ table_names ->
        Forall (fun l => entry_closed name l = true) ls).
Proof.
  intros ls. split.
  - apply Forall_forall. intros l [_ Hl]%list_elem_of_filter.
    pose proof (split_nl_no_nl config) as H. rewrite Forall_forall in H. auto.
  - intros name Hc Hname. apply Forall_forall.
    intros l [_ Hl]%list_elem_of_filter. by apply Hc.
Qed.

(** Comment lines and the simple variables: the values found are those of
    the document without its comment lines. *)
Lemma extract_simple_without_comments config :
  extract_simple (without_comments config) = extract_simple config.
Proof.
  rewrite !extract_simple_spec.
  assert (forall var, var ∈ simple_vars ->
            search_simple var true (without_comments config)
            = search_simple var true config) as H.
  { intros var Hvar. unfold without_comments.
    rewrite <- (join_split config) at 2.
    rewrite !search_join;
      [|by apply simple_vars_no_nl|apply split_nl_no_nl
       |by apply simple_vars_no_nl|apply without_comments_lines].
    f_equal. apply omap_filter_None. intros l. by apply comment_no_simple. }
  unfold simple_vars in *. cbn [omap list_omap].
  rewrite !H; [done|set_solver..].
Qed.

Lemma findall_without_comments name config :
  name ∈ table_names -> entries_closed config ->
  findall name (without_comments config) = findall name config.
Proof.
  intros Hname Hc. unfold without_comments.
  rewrite <- (join_split config) at 2.
  destruct (without_comments_lines config) as [H1 H2].
  rewrite !findall_join;
    [|by apply table_names_no_nl|apply split_nl_no_nl|
     |by apply table_names_no_nl|done|by apply H2].
  - apply omap_filter_None. intros l. by apply comment_no_entry.
  - apply Forall_forall. intros l Hl. by apply Hc.
Qed.

(** C10, as far as it holds.  A line that begins with a hash gives no value
    of a simple variable; and in a document whose table lines each hold a
    whole entry, taking the lines that begin with a hash away changes
    nothing of what is extracted. *)
Theorem comments_not_extracted config :
  simple (_extract_user_values (without_comments config))
  = simple (_extract_user_values config)
  /\ (entries_closed config ->
      _extract_user_values (without_comments config)
      = _extract_user_values config).
Proof.
  split; [apply extract_simple_without_comments|].
  intros Hc. unfold _extract_user_values.
  rewrite extract_simple_without_comments.
  rewrite !findall_without_comments; [done|unfold table_names; set_solver..].
Qed.

Lemma comments_not_extracted_witness :
  let config :=
    join_nl [txt "# GIT_USERNAME=nobody"; txt "GIT_USERNAME=alice";
             q "# REPO_CONFIGS[web]=`npm test`";
             q "REPO_CONFIGS[acmd]=`build|test|lint`"] in
  _extract_user_values (without_comments config) = _extract_user_values config.
Proof.
  intros config. apply (comments_not_extracted config).
  intros name l Hname Hl. revert Hname. unfold table_names.
  rewrite !elem_of_cons, elem_of_nil. intros [->|[->|[->|[->|[]]]]];
    revert Hl; vm_compute split_nl; rewrite !elem_of_cons, elem_of_nil;
    intros [->|[->|[->|[->|[]]]]]; reflexivity.
Defined.

(** C10 as it is worded fails: the key and the value of an entry may run
    over several lines, and then a line that begins with a hash is part of
    what is extracted.  Here the value comes from the comment line. *)
Lemma comment_line_extracted :
  let config := join_nl [txt "REPO_CONFIGS[a"; q "# REPO_CONFIGS[b]=`x`"] in
  repo_configs (_extract_user_values config)
  = [(txt "a" ++ NL :: txt "# REPO_CONFIGS[b", txt "x")]
  /\ repo_configs (_extract_user_values (without_comments config)) = [].
Proof. vm_compute. done. Qed.

End ExtractFacts.

(** ** The alias resolution *)

Section AliasFacts.

Import Normalizer Spec.

Lemma full_to_short_from_lookup (ms : list (str * str)) (acc : gmap str str) k s :
  fold_left (fun d '(shorthand, full_name) => <[full_name := shorthand]> d)
            ms acc !! k = Some s ->
  (s, k) ∈ ms \/ acc !! k = Some s.
Proof.
  revert acc. induction ms as [|[s' f'] ms IH]; intros acc H; [by right|].
  cbn [fold_left] in H. destruct (IH _ H) as [Hin|Hacc].
  - left. by right.
  - destruct (decide (f' = k)) as [->|Hne].
    + rewrite lookup_insert_eq in Hacc. injection Hacc as ->. left. by left.
    + rewrite lookup_insert_ne in Hacc by done. by right.
Qed.

(** The reverse map sends canonical names of the alias table to shorthands
    of the alias table. *)
Lemma build_full_to_short_lookup ms k s :
  build_full_to_short ms !! k = Some s -> (s, k) ∈ ms.
Proof.
  intros [H|H]%full_to_short_from_lookup; [done|].
  by rewrite lookup_empty in H.
Qed.

Lemma resolve_keys_idem ms raw :
  aliases_separate ms ->
  resolve_keys (build_full_to_short ms) (resolve_keys (build_full_to_short ms) raw)
  = resolve_keys (build_full_to_short ms) raw.
Proof.
  intros Hsep. unfold resolve_keys. rewrite map_map.
  apply map_ext. intros [k v].
  destruct (build_full_to_short ms !! k) as [s|] eqn:E; simpl.
  - destruct (build_full_to_short ms !! s) as [s'|] eqn:E'; simpl; [|done].
    apply build_full_to_short_lookup in E, E'.
    by destruct (Hsep _ _ _ _ E E').
  - by rewrite E.
Qed.

(** C3, as far as it holds.  In a document whose alias table has no
    shorthand that is also a canonical name, resolving the keys of the
    extracted entries once more changes nothing, in each of the three
    categories. *)
Theorem alias_resolution_idempotent config :
  let uv := _extract_user_values config in
  let full_to_short := build_full_to_short (mappings uv) in
  aliases_separate (mappings uv) ->
  resolve_keys full_to_short (ide_configs uv) = ide_configs uv
  /\ resolve_keys full_to_short (repo_configs uv) = repo_configs uv
  /\ resolve_keys full_to_short (repo_modules uv) = repo_modules uv.
Proof.
  intros uv m Hsep. unfold m, uv in *. cbn [_extract_user_values mappings
    ide_configs repo_configs repo_modules] in *.
  by rewrite !resolve_keys_idem.
Qed.

Lemma alias_resolution_idempotent_witness :
  let uv := _extract_user_values
              (join_nl [q "REPO_MAPPINGS[acmd]=`Org-Android`";
                        q "REPO_CONFIGS[Org-Android]=`build|test|lint`"]) in
  resolve_keys (build_full_to_short (mappings uv)) (repo_configs uv)
  = repo_configs uv.
Proof.
  intros uv.
  refine (proj1 (proj2 (alias_resolution_idempotent
    (join_nl [q "REPO_MAPPINGS[acmd]=`Org-Android`";
              q "REPO_CONFIGS[Org-Android]=`build|test|lint`"]) _))).
  vm_compute mappings. intros s f s' f'.
  rewrite !elem_of_cons, !elem_of_nil.
  intros [[= -> ->]|[]] [[= -> ->]|[]]. done.
Defined.

(** C3 as it is worded fails: a shorthand may be the canonical name of
    another alias.  Here the key [lib] resolves to [core], and [core]
    resolves to [c]. *)
Lemma alias_resolution_not_idempotent :
  let uv := _extract_user_values
              (join_nl [q "REPO_MAPPINGS[core]=`lib`";
                        q "REPO_MAPPINGS[c]=`core`";
                        q "REPO_CONFIGS[lib]=`make`"]) in
  repo_configs uv = [(txt "core", txt "make")]
  /\ resolve_keys (build_full_to_short (mappings uv)) (repo_configs uv)
     = [(txt "c", txt "make")].
Proof. vm_compute. done. Qed.

End AliasFacts.

(** ** The merge loop *)

Section NormalizeFacts.

Import Normalizer Spec Template.

Lemma drop_while_length {A} (f : A -> bool) (l : list A) :
  length (drop_while f l) <= length l.
Proof.
  induction l as [|x l IH]; simpl; [lia|]. destruct (f x); simpl; lia.
Qed.

Lemma take_drop_while {A} (f : A -> bool) (l : list A) :
  take_while f l ++ drop_while f l = l.
Proof.
  induction l as [|x l IH]; simpl; [done|].
  destruct (f x); simpl; [by rewrite IH|done].
Qed.

Lemma skip_examples_length f l : length (skip_examples f l) <= length l.
Proof.
  induction l as [|x l IH]; cbn [skip_examples length]; [lia|].
  destruct (f x); [lia|].
  destruct (starts_with (txt "# ===") x); [simpl; lia|].
  destruct (strip_is_empty x && _); simpl; lia.
Qed.

(** The loop moves forward at every turn: any fuel that is at least the
    number of lines left gives the same output. *)
Lemma normalize_loop_fuel uv f1 f2 lines :
  length lines <= f1 -> length lines <= f2 ->
  normalize_loop f1 uv lines = normalize_loop f2 uv lines.
Proof.
  revert f2 lines. induction f1 as [|f1 IH]; intros f2 lines H1 H2.
  - destruct lines; [|simpl in H1; lia]. by destruct f2.
  - destruct lines as [|line rest]; [by destruct f2|].
    destruct f2 as [|f2]; [simpl in H2; lia|].
    simpl in H1, H2. cbn [normalize_loop].
    pose proof (drop_while_length (fun l => negb (contains (txt "===") l)) rest).
    pose proof (drop_while_length ide_example
      (drop_while (fun l => negb (ide_example l)) rest)).
    pose proof (drop_while_length (fun l => negb (ide_example l)) rest).
    pose proof (skip_examples_length ci_example
      (drop_while (fun l => negb (ci_first_example l)) rest)).
    pose proof (drop_while_length (fun l => negb (ci_first_example l)) rest).
    pose proof (skip_examples_length modules_example
      (drop_while (fun l => negb (modules_first_example l)) rest)).
    pose proof (drop_while_length (fun l => negb (modules_first_example l)) rest).
    rewrite (IH f2 (skip_to_section rest)) by (unfold skip_to_section; lia).
    rewrite (IH f2 (drop_while ide_example
      (drop_while (fun l => negb (ide_example l)) rest))) by lia.
    rewrite (IH f2 (skip_examples ci_example
      (drop_while (fun l => negb (ci_first_example l)) rest))) by lia.
    rewrite (IH f2 (skip_examples modules_example
      (drop_while (fun l => negb (modules_first_example l)) rest))) by lia.
    rewrite (IH f2 rest) by lia.
    reflexivity.
Qed.

(** One turn of the loop. *)
Lemma normalize_lines_cons uv line0 rest :
  normalize_lines uv (line0 :: rest) =
  let line := replace_simple (simple uv) line0 in
  if contains mappings_marker line then
    line :: mappings_block uv ++ normalize_lines uv (skip_to_section rest)
  else if starts_with (txt "# Optional: IDE configuration") line then
    line :: take_while (fun l => negb (ide_example l)) rest
    ++ entries_block (txt "REPO_IDE_CONFIGS") (ide_configs uv)
    ++ normalize_lines uv
         (drop_while ide_example
            (drop_while (fun l => negb (ide_example l)) rest))
  else if starts_with (txt "# Optional: CI commands") line then
    line :: take_while (fun l => negb (ci_first_example l)) rest
    ++ entries_block (txt "REPO_CONFIGS") (repo_configs uv)
    ++ normalize_lines uv
         (skip_examples ci_example
            (drop_while (fun l => negb (ci_first_example l)) rest))
  else if starts_with (txt "# Optional: Modular builds") line then
    line :: take_while (fun l => negb (modules_first_example l)) rest
    ++ entries_block (txt "REPO_MODULES") (repo_modules uv)
    ++ normalize_lines uv
         (skip_examples modules_example
            (drop_while (fun l => negb (modules_first_example l)) rest))
  else line :: normalize_lines uv rest.
Proof.
  unfold normalize_lines. cbn [length normalize_loop].
  pose proof (drop_while_length (fun l => negb (contains (txt "===") l)) rest).
  pose proof (drop_while_length ide_example
    (drop_while (fun l => negb (ide_example l)) rest)).
  pose proof (drop_while_length (fun l => negb (ide_example l)) rest).
  pose proof (skip_examples_length ci_example
    (drop_while (fun l => negb (ci_first_example l)) rest)).
  pose proof (drop_while_length (fun l => negb (ci_first_example l)) rest).
  pose proof (skip_examples_length modules_example
    (drop_while (fun l => negb (modules_first_example l)) rest)).
  pose proof (drop_while_length (fun l => negb (modules_first_example l)) rest).
  cbv zeta.
  rewrite (normalize_loop_fuel uv (length rest) (length (skip_to_section rest))
             (skip_to_section rest)) by (unfold skip_to_section; lia).
  rewrite (normalize_loop_fuel uv (length rest) _
             (drop_while ide_example
                (drop_while (fun l => negb (ide_example l)) rest)) ltac:(lia)
             (Nat.le_refl _)).
  rewrite (normalize_loop_fuel uv (length rest) _
             (skip_examples ci_example
                (drop_while (fun l => negb (ci_first_example l)) rest))
             ltac:(lia) (Nat.le_refl _)).
  rewrite (normalize_loop_fuel uv (length rest) _
             (skip_examples modules_example
                (drop_while (fun l => negb (modules_first_example l)) rest))
             ltac:(lia) (Nat.le_refl _)).
  reflexivity.
Qed.

Lemma normalize_lines_nil uv : normalize_lines uv [] = [].
Proof. done. Qed.

Lemma simple_vars_cases (P : str -> Prop) :
  P (txt "GIT_USERNAME") -> P (txt "BRANCH_PREFIX") ->
  P (txt "BASE_DEV_PATH") -> P (txt "CONFIG_VERSION") ->
  forall var, var ∈ simple_vars -> P var.
Proof.
  intros ? ? ? ? var. unfold simple_vars. rewrite !elem_of_cons, elem_of_nil.
  by intros [->|[->|[->|[->|[]]]]].
Qed.

Lemma extract_simple_ok config : simple_ok (_extract_user_values config).
Proof.
  unfold simple_ok. cbn [_extract_user_values simple].
  rewrite extract_simple_spec. apply Forall_forall. intros [k v] Hin.
  apply list_elem_of_omap in Hin as (var & Hvar & Hf).
  destruct (search_simple var true config); [|done].
  by injection Hf as <- <-.
Qed.

(** The replacement leaves the line, or writes the line of a variable the
    line starts with. *)
Lemma replace_simple_cases d l :
  replace_simple d l = l
  \/ exists var v, (var, v) ∈ d /\ starts_with (var ++ txt "=") l = true
                   /\ replace_simple d l = var ++ txt "=" ++ v.
Proof.
  induction d as [|[var v] d IH]; cbn [replace_simple]; [by left|].
  destruct (starts_with (var ++ txt "=") l) eqn:E.
  - right. exists var, v. split_and!; [by left|done|done].
  - destruct IH as [IH|(var' & v' & Hin & Hs & IH)]; [by left|].
    right. exists var', v'. split_and!; [by right|done|done].
Qed.

Lemma is_simple_line_false var l :
  var ∈ simple_vars -> is_simple_line l = false ->
  starts_with (var ++ txt "=") l = false.
Proof.
  intros Hvar H. unfold is_simple_line in H.
  destruct (starts_with (var ++ txt "=") l) eqn:E; [|done].
  rewrite <- H. symmetry. apply existsb_exists. exists var.
  split; [by apply list_elem_of_In|done].
Qed.

Lemma replace_simple_plain uv l :
  simple_ok uv -> is_simple_line l = false ->
  replace_simple (simple uv) l = l.
Proof.
  intros Hok Hl.
  destruct (replace_simple_cases (simple uv) l)
    as [H|(var & v & Hin & Hs & _)]; [done|].
  unfold simple_ok in Hok. rewrite Forall_forall in Hok.
  specialize (Hok _ Hin). simpl in Hok.
  by rewrite (is_simple_line_false _ _ Hok Hl) in Hs.
Qed.

Lemma simple_line_not_header var v :
  var ∈ simple_vars -> is_header (var ++ txt "=" ++ v) = false.
Proof. revert var. by apply simple_vars_cases. Qed.

Lemma replace_simple_not_header uv l :
  simple_ok uv -> is_header l = false ->
  is_header (replace_simple (simple uv) l) = false.
Proof.
  intros Hok Hl.
  destruct (replace_simple_cases (simple uv) l)
    as [->|(var & v & Hin & Hs & ->)]; [done|].
  unfold simple_ok in Hok. rewrite Forall_forall in Hok.
  apply simple_line_not_header. apply (Hok _ Hin).
Qed.

Lemma skip_to_section_app xs d ys :
  contains (txt "===") d = true ->
  skip_to_section (xs ++ d :: ys) = skip_to_section xs ++ d :: ys.
Proof.
  intros Hd. unfold skip_to_section.
  induction xs as [|x xs IH]; cbn [app drop_while].
  - by rewrite Hd.
  - destruct (contains (txt "===") x); cbn [negb]; [done|apply IH].
Qed.

Lemma skip_to_section_Forall (P : str -> Prop) xs :
  Forall P xs -> Forall P (skip_to_section xs).
Proof.
  unfold skip_to_section.
  induction 1 as [|x xs Hx Hxs IH]; cbn [drop_while]; [done|].
  destruct (contains (txt "===") x); cbn [negb]; [by constructor|done].
Qed.

(** Up to a line that holds [===] and is reached outside the optional
    sections, the loop does not look at what follows that line. *)
Lemma normalize_lines_section uv xs d ys :
  simple_ok uv ->
  Forall (fun l => is_header l = false) xs ->
  contains (txt "===") d = true ->
  normalize_lines uv (xs ++ d :: ys)
  = normalize_lines uv xs ++ normalize_lines uv (d :: ys).
Proof.
  intros Hok Hxs Hd.
  remember (length xs) as n eqn:Hn.
  assert (length xs <= n) as Hle by lia. clear Hn.
  revert xs Hxs Hle. induction n as [|n IH]; intros xs Hxs Hle.
  - destruct xs; [done|simpl in Hle; lia].
  - destruct xs as [|x xs]; [done|].
    inversion Hxs as [|? ? Hx Hxs']; subst. simpl in Hle.
    change ((x :: xs) ++ d :: ys) with (x :: xs ++ d :: ys).
    rewrite !(normalize_lines_cons uv x). cbv zeta.
    pose proof (replace_simple_not_header uv x Hok Hx) as Hh.
    unfold is_header in Hh.
    apply orb_false_iff in Hh as [[H1 H2]%orb_false_iff H3].
    rewrite H1, H2, H3.
    destruct (contains mappings_marker (replace_simple (simple uv) x)).
    + rewrite skip_to_section_app by done.
      pose proof (drop_while_length
        (fun l => negb (contains (txt "===") l)) xs) as Hlen.
      rewrite IH; [|by apply skip_to_section_Forall|
                   unfold skip_to_section; lia].
      cbn [app]. by rewrite app_assoc.
    + rewrite IH; [done|done|lia].
Qed.

Lemma step_copy uv l rest :
  simple_ok uv -> is_simple_line l = false ->
  contains mappings_marker l = false -> is_header l = false ->
  normalize_lines uv (l :: rest) = l :: normalize_lines uv rest.
Proof.
  intros Hok Hs Hm Hh. rewrite normalize_lines_cons. cbv zeta.
  rewrite replace_simple_plain by done. rewrite Hm.
  unfold is_header in Hh.
  apply orb_false_iff in Hh as [[H1 H2]%orb_false_iff H3].
  by rewrite H1, H2, H3.
Qed.

Lemma step_guard uv l rest :
  simple_ok uv -> is_simple_line l = false ->
  contains mappings_marker l = true ->
  normalize_lines uv (l :: rest)
  = l :: mappings_block uv ++ normalize_lines uv (skip_to_section rest).
Proof.
  intros Hok Hs Hm. rewrite normalize_lines_cons. cbv zeta.
  rewrite replace_simple_plain by done. by rewrite Hm.
Qed.

Lemma Forall_forallb_false {A} (f : A -> bool) (l : list A) :
  forallb (fun x => negb (f x)) l = true -> Forall (fun x => f x = false) l.
Proof.
  induction l as [|x l IH]; simpl; [done|].
  intros [Hx Hl]%andb_true_iff. constructor; [|by apply IH].
  by apply negb_true_iff.
Qed.

Lemma split_example_config : split_nl example_config = example_lines.
Proof. vm_compute. reflexivity. Qed.

(** The merge of the template around its REPO_MAPPINGS declaration. *)
Lemma normalize_lines_guard uv :
  simple_ok uv ->
  normalize_lines uv example_lines
  = normalize_lines uv before_guard
    ++ guard :: mappings_block uv ++ normalize_lines uv after_guard.
Proof.
  intros Hok.
  set (xs := take 24 example_lines).
  set (d := default [] (example_lines !! 24)).
  assert (Forall (fun l => is_header l = false) xs) as Hxs.
  { apply Forall_forallb_false. vm_compute. reflexivity. }
  assert (contains (txt "===") d = true) as Hd by (vm_compute; reflexivity).
  replace example_lines
    with (xs ++ d :: [] :: guard :: guard_examples ++ after_guard)
    by (vm_compute; reflexivity).
  replace before_guard with (xs ++ d :: [[]]) by (vm_compute; reflexivity).
  rewrite !normalize_lines_section by done.
  rewrite <- app_assoc. f_equal.
  rewrite !(step_copy uv d) by (done || (vm_compute; reflexivity)).
  rewrite !(step_copy uv []) by (done || (vm_compute; reflexivity)).
  rewrite step_guard by (done || (vm_compute; reflexivity)).
  rewrite normalize_lines_nil.
  assert (skip_to_section (guard_examples ++ after_guard) = after_guard)
    as -> by (vm_compute; reflexivity).
  reflexivity.
Qed.

(** C5. Whatever the user document is, the merge of the template writes the
    line of the REPO_MAPPINGS declaration as it is; after it a blank line
    and one line per alias entry, in the order of extraction, when there is
    an entry, and nothing when there is none; and it goes on with the first
    line after the declaration that holds [===], the template lines in
    between being dropped. *)
Theorem guard_line_emitted config :
  let uv := values (init config example_config) in
  example_lines = before_guard ++ guard :: guard_examples ++ after_guard
  /\ contains mappings_marker guard = true
  /\ Forall (fun l => contains (txt "===") l = false) guard_examples
  /\ (exists d rest, after_guard = d :: rest /\ contains (txt "===") d = true)
  /\ normalize (init config example_config)
     = join_nl
         (normalize_lines uv before_guard
          ++ guard
          :: match mappings uv with
             | [] => []
             | _ :: _ => [] :: map (format_entry (txt "REPO_MAPPINGS")) (mappings uv)
             end
          ++ normalize_lines uv after_guard).
Proof.
  intros uv. split_and!.
  - vm_compute. reflexivity.
  - vm_compute. reflexivity.
  - apply Forall_forallb_false. vm_compute. reflexivity.
  - eexists _, _. split; [vm_compute; reflexivity|vm_compute; reflexivity].
  - unfold normalize. cbn [Normalizer.example_config values init].
    rewrite split_example_config.
    rewrite normalize_lines_guard by apply extract_simple_ok. reflexivity.
Qed.

End NormalizeFacts.

(** ** The merge of the template *)

Section MergeFacts.

Import Normalizer Spec Template.

Lemma flat_map_Copy uv ls : flat_map (inst uv) (map Copy ls) = ls.
Proof. induction ls as [|l ls IH]; [done|]. cbn. by rewrite IH. Qed.

Lemma is_header_false l :
  is_header l = false ->
  starts_with (txt "# Optional: IDE configuration") l = false
  /\ starts_with (txt "# Optional: CI commands") l = false
  /\ starts_with (txt "# Optional: Modular builds") l = false.
Proof.
  unfold is_header. intros [[H1 H2]%orb_false_iff H3]%orb_false_iff.
  exact (conj H1 (conj H2 H3)).
Qed.

(** The loop on the user's data writes what the loop on the template alone
    foresees, with the user's data put in. *)
Lemma skeleton_sound uv fuel lines items :
  simple_ok uv -> no_marker uv ->
  skeleton fuel lines = Some items ->
  normalize_loop fuel uv lines = flat_map (inst uv) items.
Proof.
  intros Hok Hnm. revert lines items.
  induction fuel as [|fuel IH]; intros lines items H.
  { destruct lines; injection H as <-; done. }
  destruct lines as [|l rest]; [by injection H as <-|].
  cbn [skeleton normalize_loop] in *.
  destruct (is_simple_line l) eqn:Es.
  - destruct (contains mappings_marker l || is_header l) eqn:E; [done|].
    apply orb_false_iff in E as [Hm Hh].
    apply fmap_Some in H as (r & Hr & ->).
    cbn [flat_map inst app].
    assert (contains mappings_marker (replace_simple (simple uv) l) = false
            /\ is_header (replace_simple (simple uv) l) = false) as [Hm' Hh'].
    { destruct (replace_simple_cases (simple uv) l)
        as [->|(var & v & Hin & Hs & ->)]; [done|].
      split; [by apply Hnm|]. apply simple_line_not_header.
      unfold simple_ok in Hok. rewrite Forall_forall in Hok.
      apply (Hok _ Hin). }
    apply is_header_false in Hh' as (H1 & H2 & H3).
    rewrite Hm', H1, H2, H3. f_equal. by apply IH.
  - rewrite replace_simple_plain by done.
    destruct (contains mappings_marker l).
    { apply fmap_Some in H as (r & Hr & ->). cbn [flat_map inst app].
      do 2 f_equal. by apply IH. }
    destruct (starts_with (txt "# Optional: IDE configuration") l).
    { apply fmap_Some in H as (r & Hr & ->). cbn [flat_map inst app].
      rewrite flat_map_app, flat_map_Copy. cbn [flat_map inst].
      do 3 f_equal. by apply IH. }
    destruct (starts_with (txt "# Optional: CI commands") l).
    { apply fmap_Some in H as (r & Hr & ->). cbn [flat_map inst app].
      rewrite flat_map_app, flat_map_Copy. cbn [flat_map inst].
      do 3 f_equal. by apply IH. }
    destruct (starts_with (txt "# Optional: Modular builds") l).
    { apply fmap_Some in H as (r & Hr & ->). cbn [flat_map inst app].
      rewrite flat_map_app, flat_map_Copy. cbn [flat_map inst].
      do 3 f_equal. by apply IH. }
    apply fmap_Some in H as (r & Hr & ->). cbn [flat_map inst app].
    f_equal. by apply IH.
Qed.

Lemma skeleton_example :
  skeleton (length example_lines) example_lines = Some template_items.
Proof. vm_compute. reflexivity. Qed.

(** What the merge of the template writes, line by line. *)
Lemma merged_lines uv :
  simple_ok uv -> no_marker uv ->
  normalize_lines uv example_lines = flat_map (inst uv) template_items.
Proof.
  intros Hok Hnm. apply skeleton_sound; [done|done|apply skeleton_example].
Qed.

Lemma clash_app p r t : clash p r = true -> starts_with p (r ++ t) = false.
Proof.
  unfold clash. revert r. induction p as [|a p IH]; intros r H; [done|].
  destruct r as [|b r]; [done|]. cbn [starts_with app] in *.
  destruct (Ascii.eqb a b) eqn:Eab; [|done].
  apply Ascii.eqb_eq in Eab as ->. rewrite Ascii.eqb_refl in H.
  cbn [andb] in *. by apply IH.
Qed.

Lemma format_entry_app name kv :
  format_entry name kv
  = (name ++ txt "[") ++ kv.1 ++ q "]=`" ++ kv.2 ++ q "`".
Proof. unfold format_entry. by rewrite <- app_assoc. Qed.

Lemma starts_with_format_entry name kv :
  starts_with (name ++ txt "[") (format_entry name kv) = true.
Proof. rewrite format_entry_app. apply starts_with_app. Qed.

Lemma Forall_entries_block (P : str -> Prop) name entries :
  P [] -> (forall kv, P (format_entry name kv)) ->
  Forall P (entries_block name entries).
Proof.
  intros Hb Hf. unfold entries_block. destruct entries as [|kv entries]; [done|].
  constructor; [done|]. apply Forall_app. split; [|by constructor].
  apply Forall_forall. intros l (kv' & -> & _)%list_elem_of_fmap. apply Hf.
Qed.

Lemma Forall_mappings_block (P : str -> Prop) uv :
  P [] -> (forall kv, P (format_entry (txt "REPO_MAPPINGS") kv)) ->
  Forall P (mappings_block uv).
Proof.
  intros Hb Hf. unfold mappings_block.
  destruct (mappings uv) as [|kv entries]; [done|].
  constructor; [done|].
  apply Forall_forall. intros l (kv' & -> & _)%list_elem_of_fmap. apply Hf.
Qed.

(** The lines of a quiet item do not start with the prefix. *)
Lemma quiet_lines p uv it :
  simple_ok uv -> quiet_for p it = true ->
  Forall (fun l => starts_with p l = false) (inst uv it).
Proof.
  intros Hok H. destruct it as [l|l| | | |]; cbn [quiet_for inst] in *.
  - constructor; [by apply negb_true_iff|constructor].
  - apply andb_true_iff in H as [Hl Hvars]. apply negb_true_iff in Hl.
    constructor; [|constructor].
    destruct (replace_simple_cases (simple uv) l)
      as [->|(var & v & Hin & Hs & ->)]; [exact Hl|].
    rewrite app_assoc. apply clash_app.
    rewrite forallb_forall in Hvars.
    assert (In var simple_vars) as Hvar.
    { apply list_elem_of_In. unfold simple_ok in Hok.
      rewrite Forall_forall in Hok. apply (Hok _ Hin). }
    specialize (Hvars var Hvar). rewrite Hs in Hvars. exact Hvars.
  - apply andb_true_iff in H as [Hb Hc]. apply negb_true_iff in Hb.
    apply Forall_mappings_block; [exact Hb|].
    intros kv. rewrite format_entry_app. by apply clash_app.
  - apply andb_true_iff in H as [Hb Hc]. apply negb_true_iff in Hb.
    apply Forall_entries_block; [exact Hb|].
    intros kv. rewrite format_entry_app. by apply clash_app.
  - apply andb_true_iff in H as [Hb Hc]. apply negb_true_iff in Hb.
    apply Forall_entries_block; [exact Hb|].
    intros kv. rewrite format_entry_app. by apply clash_app.
  - apply andb_true_iff in H as [Hb Hc]. apply negb_true_iff in Hb.
    apply Forall_entries_block; [exact Hb|].
    intros kv. rewrite format_entry_app. by apply clash_app.
Qed.

Lemma quiet_items p uv items :
  simple_ok uv -> forallb (quiet_for p) items = true ->
  Forall (fun l => starts_with p l = false) (flat_map (inst uv) items).
Proof.
  intros Hok. induction items as [|it items IH]; cbn [forallb flat_map].
  - constructor.
  - intros [Hit Hitems]%andb_true_iff. apply Forall_app.
    split; [by apply quiet_lines|by apply IH].
Qed.

Lemma lines_with_app p l1 l2 :
  lines_with p (l1 ++ l2) = lines_with p l1 ++ lines_with p l2.
Proof. apply List.filter_app. Qed.

Lemma lines_with_none p ls :
  Forall (fun l => starts_with p l = false) ls -> lines_with p ls = [].
Proof.
  induction 1 as [|l ls Hl Hls IH]; [done|].
  unfold lines_with in *. cbn [List.filter]. by rewrite Hl.
Qed.

Lemma lines_with_all p ls :
  Forall (fun l => starts_with p l = true) ls -> lines_with p ls = ls.
Proof.
  induction 1 as [|l ls Hl Hls IH]; [done|].
  unfold lines_with in *. cbn [List.filter]. by rewrite Hl, IH.
Qed.

(** When one item of the plan may write lines that start with a prefix,
    the lines of the output that start with it are lines of that item. *)
Lemma lines_with_single p uv items i it :
  simple_ok uv -> items !! i = Some it ->
  forallb (quiet_for p) (take i items) = true ->
  forallb (quiet_for p) (drop (S i) items) = true ->
  lines_with p (flat_map (inst uv) items) = lines_with p (inst uv it).
Proof.
  intros Hok Hi Hbefore Hafter.
  rewrite <- (take_drop_middle items i it Hi).
  rewrite flat_map_app. cbn [flat_map]. rewrite !lines_with_app.
  rewrite (lines_with_none p (flat_map _ (take i items)))
    by by apply quiet_items.
  rewrite (lines_with_none p (flat_map _ (drop (S i) items)))
    by by apply quiet_items.
  by rewrite app_nil_r.
Qed.

Lemma lines_with_entries name entries :
  lines_with (name ++ txt "[") (map (format_entry name) entries)
  = map (format_entry name) entries.
Proof.
  apply lines_with_all, Forall_forall.
  intros l (kv & -> & _)%list_elem_of_fmap. apply starts_with_format_entry.
Qed.

Lemma starts_with_blank p : p <> [] -> starts_with p [] = false.
Proof. by destruct p. Qed.

Lemma lines_with_entries_block name entries :
  lines_with (name ++ txt "[") (entries_block name entries)
  = map (format_entry name) entries.
Proof.
  unfold entries_block. destruct entries as [|kv entries]; [done|].
  change ([] :: map (format_entry name) (kv :: entries) ++ [[]])
    with ([[]] ++ map (format_entry name) (kv :: entries) ++ [[]]).
  rewrite !lines_with_app, lines_with_entries.
  assert (lines_with (name ++ txt "[") [[]] = []) as ->.
  { unfold lines_with. cbn [List.filter].
    rewrite starts_with_blank; [done|by destruct name]. }
  by rewrite app_nil_r.
Qed.

Lemma lines_with_mappings_block uv :
  lines_with (txt "REPO_MAPPINGS[") (mappings_block uv)
  = map (format_entry (txt "REPO_MAPPINGS")) (mappings uv).
Proof.
  unfold mappings_block. destruct (mappings uv) as [|kv entries]; [done|].
  change ([] :: map (format_entry (txt "REPO_MAPPINGS")) (kv :: entries))
    with ([[]] ++ map (format_entry (txt "REPO_MAPPINGS")) (kv :: entries)).
  rewrite lines_with_app.
  change (txt "REPO_MAPPINGS[") with (txt "REPO_MAPPINGS" ++ txt "[").
  by rewrite lines_with_entries.
Qed.

Lemma search_simple_no_nl var bol s v :
  search_simple var bol s = Some v -> no_nl v.
Proof.
  revert bol. induction s as [|c s IH]; intros bol; rewrite search_simple_eq.
  - destruct (if bol then _ else _); [|done].
    intros [= <-]. apply take_until_notin.
  - destruct (if bol then _ else _); [|by apply IH].
    intros [= <-]. apply take_until_notin.
Qed.

Lemma extract_simple_one_line config :
  simple_one_line (_extract_user_values config).
Proof.
  unfold simple_one_line. cbn [_extract_user_values simple].
  rewrite extract_simple_spec. apply Forall_forall. intros [k v] Hin.
  apply list_elem_of_omap in Hin as (var & Hvar & Hf).
  destruct (search_simple var true config) as [w|] eqn:E; [|done].
  injection Hf as <- <-. by apply search_simple_no_nl in E.
Qed.

Lemma format_entry_no_nl name kv :
  no_nl name -> no_nl kv.1 -> no_nl kv.2 -> no_nl (format_entry name kv).
Proof.
  intros Hn Hk Hv. unfold format_entry. rewrite !no_nl_app.
  split_and!; try done; decide_closed.
Qed.

Lemma entries_block_no_nl name entries :
  no_nl name -> one_line entries -> Forall no_nl (entries_block name entries).
Proof.
  intros Hn He. unfold entries_block.
  destruct entries as [|kv entries]; [done|].
  constructor; [apply no_nl_nil|]. apply Forall_app.
  split; [|constructor; [apply no_nl_nil|done]].
  apply Forall_forall. intros l (kv' & -> & Hin)%list_elem_of_fmap.
  unfold one_line in He. rewrite Forall_forall in He.
  destruct (He _ Hin). by apply format_entry_no_nl.
Qed.

Lemma inst_no_nl uv it :
  simple_ok uv -> simple_one_line uv -> entries_one_line uv ->
  item_one_line it = true -> Forall no_nl (inst uv it).
Proof.
  intros Hok Hs (Hm & Hi & Hc & Hmo) Hit.
  destruct it as [l|l| | | |]; cbn [inst item_one_line] in *.
  - constructor; [exact (bool_decide_eq_true_1 _ Hit)|done].
  - constructor; [|done].
    destruct (replace_simple_cases (simple uv) l)
      as [->|(var & v & Hin & _ & ->)]; [exact (bool_decide_eq_true_1 _ Hit)|].
    unfold simple_ok, simple_one_line in *. rewrite Forall_forall in Hok, Hs.
    rewrite !no_nl_app. split_and!.
    + apply simple_vars_no_nl. apply (Hok _ Hin).
    + decide_closed.
    + apply (Hs _ Hin).
  - unfold mappings_block. destruct (mappings uv) as [|kv entries] eqn:E; [done|].
    constructor; [apply no_nl_nil|].
    apply Forall_forall. intros l (kv' & -> & Hin)%list_elem_of_fmap.
    unfold one_line in Hm. rewrite Forall_forall in Hm.
    destruct (Hm _ Hin). apply format_entry_no_nl; try done.
    decide_closed.
  - apply entries_block_no_nl; [|done]. decide_closed.
  - apply entries_block_no_nl; [|done]. decide_closed.
  - apply entries_block_no_nl; [|done]. decide_closed.
Qed.

Lemma flat_map_no_nl uv items :
  simple_ok uv -> simple_one_line uv -> entries_one_line uv ->
  forallb item_one_line items = true ->
  Forall no_nl (flat_map (inst uv) items).
Proof.
  intros Hok Hs He. induction items as [|it items IH]; cbn [forallb flat_map].
  - constructor.
  - intros [Hit Hitems]%andb_true_iff. apply Forall_app.
    split; [by apply inst_no_nl|by apply IH].
Qed.

(** The lines of the merged document, when no line of a simple variable
    holds the marker and no entry runs over a line. *)
Lemma merge_lines config :
  let uv := _extract_user_values config in
  no_marker uv -> entries_one_line uv ->
  split_nl (merge config example_config) = flat_map (inst uv) template_items.
Proof.
  intros uv Hnm He. unfold merge, normalize.
  cbn [Normalizer.example_config values init]. fold uv.
  rewrite split_example_config.
  rewrite merged_lines; [|apply extract_simple_ok|done].
  apply split_join.
  - replace template_items
      with (Copy (txt "#!/usr/bin/env zsh") :: drop 1 template_items)
      by (vm_compute; reflexivity).
    cbn [flat_map inst app]. discriminate.
  - apply flat_map_no_nl;
      [apply extract_simple_ok|apply extract_simple_one_line|done|].
    vm_compute. reflexivity.
Qed.

Lemma merged_no_nl config :
  let uv := _extract_user_values config in
  entries_one_line uv -> Forall no_nl (flat_map (inst uv) template_items).
Proof.
  intros uv He. apply flat_map_no_nl;
    [apply extract_simple_ok|apply extract_simple_one_line|done|].
  vm_compute. reflexivity.
Qed.

Lemma simple_prefix_exclusive var var' l :
  var ∈ simple_vars -> var' ∈ simple_vars ->
  starts_with (var ++ txt "=") l = true ->
  starts_with (var' ++ txt "=") l = true -> var = var'.
Proof.
  unfold simple_vars. rewrite !elem_of_cons, !elem_of_nil.
  intros [->|[->|[->|[->|[]]]]] [->|[->|[->|[->|[]]]]] [t ->]%starts_with_inv H;
    first [reflexivity|simpl in H; discriminate].
Qed.

Lemma dict_get_elem_of var d v : dict_get var d = Some v -> (var, v) ∈ d.
Proof.
  induction d as [|[k w] d IH]; cbn [dict_get]; [done|].
  destruct (bool_decide (k = var)) eqn:E.
  - apply bool_decide_eq_true_1 in E as ->. intros [= ->]. by left.
  - intros H. right. by apply IH.
Qed.

(** On a line that starts with [VAR=] the loop over the [simple] dict
    writes the value the dict holds for [VAR]. *)
Lemma replace_simple_get uv var v l :
  simple_ok uv -> dict_get var (simple uv) = Some v ->
  starts_with (var ++ txt "=") l = true ->
  replace_simple (simple uv) l = var ++ txt "=" ++ v.
Proof.
  unfold simple_ok. intros Hok Hget Hl.
  assert (var ∈ simple_vars) as Hvar.
  { rewrite Forall_forall in Hok. apply (Hok _ (dict_get_elem_of _ _ _ Hget)). }
  induction (simple uv) as [|[k w] d IH]; [done|].
  inversion Hok as [|? ? Hk Hok']; subst. cbn [dict_get replace_simple] in *.
  destruct (bool_decide (k = var)) eqn:E.
  - apply bool_decide_eq_true_1 in E as ->. injection Hget as ->.
    by rewrite Hl.
  - apply bool_decide_eq_false_1 in E.
    destruct (starts_with (k ++ txt "=") l) eqn:Ek; [|by apply IH].
    destruct E. by apply (simple_prefix_exclusive _ _ l).
Qed.

(** Where the template has the line of a simple variable. *)
Lemma simple_line_position var :
  var ∈ simple_vars ->
  exists i l,
    template_items !! i = Some (Simple l)
    /\ starts_with (var ++ txt "=") l = true
    /\ forallb (quiet_for (var ++ txt "=")) (take i template_items) = true
    /\ forallb (quiet_for (var ++ txt "=")) (drop (S i) template_items) = true
    /\ lines_with (var ++ txt "=") example_lines = [l].
Proof.
  revert var. apply simple_vars_cases;
    [exists 11|exists 16|exists 20|exists 5];
    eexists; split_and!; vm_compute; reflexivity.
Qed.

(** C1, as far as it holds.  When no line written for a simple variable
    holds the marker of the REPO_MAPPINGS declaration and no extracted key
    or value runs over a line: for every simple variable the user document
    sets, the merged document has one line [NAME=], with the user's value;
    its lines that start with [REPO_MAPPINGS] and a bracket are the alias
    entries of the user document, each once and in the order of extraction;
    and so are, for each of the three categories, its entry lines, with the
    keys resolved to shorthands.  So no entry of the template is among
    them. *)
Theorem merge_preserves_user_values config :
  let uv := _extract_user_values config in
  let out := split_nl (merge config example_config) in
  let full_to_short := build_full_to_short (findall (txt "REPO_MAPPINGS") config) in
  no_marker uv -> entries_one_line uv ->
  (forall var v,
     dict_get var (simple uv) = Some v ->
     lines_with (var ++ txt "=") out = [var ++ txt "=" ++ v])
  /\ lines_with (txt "REPO_MAPPINGS[") out
     = map (format_entry (txt "REPO_MAPPINGS"))
           (findall (txt "REPO_MAPPINGS") config)
  /\ lines_with (txt "REPO_IDE_CONFIGS[") out
     = map (format_entry (txt "REPO_IDE_CONFIGS"))
           (resolve_keys full_to_short (findall (txt "REPO_IDE_CONFIGS") config))
  /\ lines_with (txt "REPO_CONFIGS[") out
     = map (format_entry (txt "REPO_CONFIGS"))
           (resolve_keys full_to_short (findall (txt "REPO_CONFIGS") config))
  /\ lines_with (txt "REPO_MODULES[") out
     = map (format_entry (txt "REPO_MODULES"))
           (resolve_keys full_to_short (findall (txt "REPO_MODULES") config)).
Proof.
  intros uv out m Hnm He. unfold out. rewrite merge_lines by done. fold uv.
  pose proof (extract_simple_ok config) as Hok. fold uv in Hok.
  split_and!.
  - intros var v Hget.
    assert (var ∈ simple_vars) as Hvar.
    { unfold simple_ok in Hok. rewrite Forall_forall in Hok.
      apply (Hok _ (dict_get_elem_of _ _ _ Hget)). }
    destruct (simple_line_position var Hvar) as (i & l & Hi & Hl & Hb & Ha & _).
    rewrite (lines_with_single _ uv _ i _ Hok Hi Hb Ha). cbn [inst].
    rewrite (replace_simple_get uv var v l Hok Hget Hl).
    rewrite app_assoc. apply lines_with_all.
    constructor; [apply starts_with_app|constructor].
  - rewrite (lines_with_single _ uv _ 27 MappingsBlock Hok);
      [|reflexivity|vm_compute; reflexivity|vm_compute; reflexivity].
    apply lines_with_mappings_block.
  - rewrite (lines_with_single _ uv _ 38 IdeBlock Hok);
      [|reflexivity|vm_compute; reflexivity|vm_compute; reflexivity].
    apply (lines_with_entries_block (txt "REPO_IDE_CONFIGS")).
  - rewrite (lines_with_single _ uv _ 50 CiBlock Hok);
      [|reflexivity|vm_compute; reflexivity|vm_compute; reflexivity].
    apply (lines_with_entries_block (txt "REPO_CONFIGS")).
  - rewrite (lines_with_single _ uv _ 68 ModulesBlock Hok);
      [|reflexivity|vm_compute; reflexivity|vm_compute; reflexivity].
    apply (lines_with_entries_block (txt "REPO_MODULES")).
Qed.

Lemma scenario_no_marker : no_marker (_extract_user_values scenario_config).
Proof.
  intros var v.
  replace (simple (_extract_user_values scenario_config))
    with [(txt "GIT_USERNAME", txt "testuser")] by (vm_compute; reflexivity).
  intros [[= -> ->]|[]%elem_of_nil]%elem_of_cons. vm_compute. reflexivity.
Defined.

Lemma scenario_one_line : entries_one_line (_extract_user_values scenario_config).
Proof. unfold entries_one_line, one_line. split_and!; decide_closed. Defined.

(** The scenario of the specification: the canonical name is resolved to
    the shorthand in the merged document. *)
Lemma merge_preserves_user_values_witness :
  lines_with (txt "REPO_MAPPINGS[")
    (split_nl (merge scenario_config example_config))
  = [q "REPO_MAPPINGS[acmd]=`Org-Android`"]
  /\ lines_with (txt "REPO_CONFIGS[")
       (split_nl (merge scenario_config example_config))
     = [q "REPO_CONFIGS[acmd]=`build|test|lint`"].
Proof.
  destruct (merge_preserves_user_values scenario_config
              scenario_no_marker scenario_one_line) as (_ & Hm & _ & Hc & _).
  rewrite Hm, Hc. split; vm_compute; reflexivity.
Defined.

(** C1 as it is worded fails: the handler of the REPO_MAPPINGS declaration
    looks for its marker in the line it has just written for a simple
    variable.  Here the user's CONFIG_VERSION line holds the declaration as
    a second statement, and the alias entry is written twice. *)
Lemma merge_duplicates_aliases :
  mappings (_extract_user_values two_statements_config)
  = [(txt "acmd", txt "Org-Android")]
  /\ lines_with (txt "REPO_MAPPINGS[")
       (split_nl (merge two_statements_config example_config))
     = [q "REPO_MAPPINGS[acmd]=`Org-Android`";
        q "REPO_MAPPINGS[acmd]=`Org-Android`"].
Proof. vm_compute. split; reflexivity. Qed.

(** A value that runs over several lines may bring a second line of a
    simple variable into the merged document. *)
Lemma merge_duplicates_simple :
  dict_get (txt "GIT_USERNAME") (simple (_extract_user_values multi_line_config))
  = Some (txt "bob")
  /\ lines_with (txt "GIT_USERNAME=")
       (split_nl (merge multi_line_config example_config))
     = [txt "GIT_USERNAME=bob"; txt "GIT_USERNAME=bob"].
Proof. vm_compute. split; reflexivity. Qed.

(** The commented examples of the template are no entries.  Those of the
    CI section that follow the first blank line stay in the merged
    document, as comments; the first one is dropped. *)
Lemma commented_examples_kept :
  lines_with (txt "# REPO_CONFIGS[")
    (split_nl (merge scenario_config example_config))
  = [q "# REPO_CONFIGS[icmd]=`bundle exec fastlane build|bundle exec fastlane unit_tests|swiftlint --strict`";
     q "# REPO_CONFIGS[web]=`npm run build|npm test|npm run lint`"].
Proof. vm_compute. reflexivity. Qed.

End MergeFacts.

(** ** Merging the merged document *)

Section IdempotenceFacts.

Import Normalizer Spec Template.

Lemma Forall_drop_while {A} (P : A -> Prop) (f : A -> bool) (l : list A) :
  Forall P l -> Forall P (drop_while f l).
Proof.
  induction 1 as [|x l Hx Hl IH]; cbn [drop_while]; [done|].
  destruct (f x); [done|by constructor].
Qed.

Lemma Forall_skip_examples (P : str -> Prop) f l :
  Forall P l -> Forall P (skip_examples f l).
Proof.
  induction 1 as [|x l Hx Hl IH]; cbn [skip_examples]; [done|].
  destruct (f x); [done|].
  destruct (starts_with (txt "# ===") x); [by constructor|].
  destruct (strip_is_empty x && _); [done|by constructor].
Qed.

(** The loop depends on the user's values only through the lines it writes
    for the simple variables and through the four lists of entries. *)
Lemma normalize_loop_ext fuel uv1 uv2 lines :
  Forall (fun l => replace_simple (simple uv1) l = replace_simple (simple uv2) l)
         lines ->
  mappings uv1 = mappings uv2 -> ide_configs uv1 = ide_configs uv2 ->
  repo_configs uv1 = repo_configs uv2 -> repo_modules uv1 = repo_modules uv2 ->
  normalize_loop fuel uv1 lines = normalize_loop fuel uv2 lines.
Proof.
  intros Hl Hm Hi Hc Hmo. revert lines Hl.
  induction fuel as [|fuel IH]; intros lines Hl; [done|].
  destruct lines as [|l rest]; [done|].
  inversion Hl as [|? ? Hl1 Hl2]; subst.
  cbn [normalize_loop]. unfold mappings_block.
  rewrite Hl1, Hm, Hi, Hc, Hmo.
  rewrite (IH (skip_to_section rest)) by by apply Forall_drop_while.
  rewrite (IH (drop_while ide_example _))
    by by do 2 apply Forall_drop_while.
  rewrite (IH (skip_examples ci_example _))
    by by apply Forall_skip_examples, Forall_drop_while.
  rewrite (IH (skip_examples modules_example _))
    by by apply Forall_skip_examples, Forall_drop_while.
  rewrite (IH rest) by done.
  reflexivity.
Qed.

Lemma line_entry_quiet name l :
  starts_with (name ++ txt "[") l = false ->
  line_entry name l = None /\ entry_closed name l = true.
Proof.
  intros H. unfold line_entry, entry_closed.
  by rewrite (match_entry_None _ _ H), H.
Qed.

Lemma line_entry_format name kv :
  kv.1 <> [] -> RB ∉ kv.1 -> DQ ∉ kv.2 ->
  line_entry name (format_entry name kv) = Some kv
  /\ entry_closed name (format_entry name kv) = true.
Proof.
  intros Hk Hrb Hdq. destruct kv as [k v]. unfold line_entry, entry_closed.
  assert (match_entry name (format_entry name (k, v))
          = Some (k, v, length (format_entry name (k, v)))) as ->; [|done].
  apply match_entry_spec. split_and!; try done.
  exists []. by rewrite app_nil_r.
Qed.

Lemma entries_quiet name ls :
  Forall (fun l => starts_with (name ++ txt "[") l = false) ls ->
  omap (line_entry name) ls = []
  /\ Forall (fun l => entry_closed name l = true) ls.
Proof.
  induction 1 as [|l ls Hl Hls [IH1 IH2]]; [done|].
  destruct (line_entry_quiet _ _ Hl) as [H1 H2].
  cbn [omap list_omap]. rewrite H1. split; [done|by constructor].
Qed.

Lemma entries_formatted name entries :
  well_formed entries ->
  omap (line_entry name) (map (format_entry name) entries) = entries
  /\ Forall (fun l => entry_closed name l = true)
            (map (format_entry name) entries).
Proof.
  induction 1 as [|kv entries (Hk & Hrb & Hdq) Hwf [IH1 IH2]]; [done|].
  destruct (line_entry_format name kv Hk Hrb Hdq) as [H1 H2].
  cbn [map omap list_omap]. rewrite H1.
  split; [by f_equal|by constructor].
Qed.

Lemma blank_quiet name :
  line_entry name [] = None /\ entry_closed name [] = true.
Proof. apply line_entry_quiet. by destruct name. Qed.

Lemma entries_of_block name entries :
  well_formed entries ->
  omap (line_entry name) (entries_block name entries) = entries
  /\ Forall (fun l => entry_closed name l = true) (entries_block name entries).
Proof.
  intros Hwf. unfold entries_block. destruct entries as [|kv entries]; [done|].
  destruct (entries_formatted name _ Hwf) as [H1 H2].
  destruct (blank_quiet name) as [B1 B2].
  change ([] :: map (format_entry name) (kv :: entries) ++ [[]])
    with ([[]] ++ map (format_entry name) (kv :: entries) ++ [[]]).
  rewrite !omap_app, H1. cbn [omap list_omap]. rewrite B1.
  split; [cbn [app]; by rewrite app_nil_r|].
  rewrite !Forall_app. split_and!; [by constructor|done|by constructor].
Qed.

Lemma entries_of_mappings_block uv :
  well_formed (mappings uv) ->
  omap (line_entry (txt "REPO_MAPPINGS")) (mappings_block uv) = mappings uv
  /\ Forall (fun l => entry_closed (txt "REPO_MAPPINGS") l = true)
            (mappings_block uv).
Proof.
  intros Hwf. unfold mappings_block.
  destruct (mappings uv) as [|kv entries] eqn:E; [done|].
  destruct (entries_formatted (txt "REPO_MAPPINGS") _ Hwf) as [H1 H2].
  destruct (blank_quiet (txt "REPO_MAPPINGS")) as [B1 B2].
  change ([] :: map (format_entry (txt "REPO_MAPPINGS")) (kv :: entries))
    with ([[]] ++ map (format_entry (txt "REPO_MAPPINGS")) (kv :: entries)).
  rewrite !omap_app, H1. cbn [omap list_omap]. rewrite B1.
  split; [done|]. rewrite !Forall_app. split; [by constructor|done].
Qed.

(** The entries found in a merged document are those of the one item of
    the plan that may write lines of the table. *)
Lemma findall_merged name uv items i it entries :
  simple_ok uv -> no_nl name ->
  Forall no_nl (flat_map (inst uv) items) ->
  items !! i = Some it ->
  forallb (quiet_for (name ++ txt "[")) (take i items) = true ->
  forallb (quiet_for (name ++ txt "[")) (drop (S i) items) = true ->
  omap (line_entry name) (inst uv it) = entries ->
  Forall (fun l => entry_closed name l = true) (inst uv it) ->
  findall name (join_nl (flat_map (inst uv) items)) = entries.
Proof.
  intros Hok Hname Hnl Hi Hb Ha Hent Hcl.
  destruct (entries_quiet name _ (quiet_items _ uv _ Hok Hb)) as [Hb1 Hb2].
  destruct (entries_quiet name _ (quiet_items _ uv _ Hok Ha)) as [Ha1 Ha2].
  rewrite findall_join; [|done|done|].
  - rewrite <- (take_drop_middle items i it Hi).
    rewrite flat_map_app. cbn [flat_map].
    rewrite !omap_app, Hb1, Ha1, Hent. by rewrite app_nil_r.
  - rewrite <- (take_drop_middle items i it Hi).
    rewrite flat_map_app. cbn [flat_map].
    rewrite !Forall_app. done.
Qed.

Lemma findall_well_formed name config : well_formed (findall name config).
Proof. apply findall_from_wf. Qed.

Lemma resolve_keys_well_formed ms raw :
  well_formed ms -> well_formed raw ->
  well_formed (resolve_keys (build_full_to_short ms) raw).
Proof.
  intros Hms Hraw. unfold well_formed, resolve_keys in *.
  apply Forall_forall. intros kv ([k v] & -> & Hin)%list_elem_of_fmap.
  rewrite Forall_forall in Hraw, Hms. destruct (Hraw _ Hin) as (Hk & Hrb & Hdq).
  cbn [fst snd] in *.
  destruct (build_full_to_short ms !! k) as [s|] eqn:E; cbn [default].
  - apply build_full_to_short_lookup in E.
    destruct (Hms _ E) as (Hs & Hsrb & _). done.
  - done.
Qed.

Lemma quiet_no_value var ls :
  Forall (fun l => starts_with (var ++ txt "=") l = false) ls ->
  omap (strip_prefix (var ++ txt "=")) ls = [].
Proof.
  induction 1 as [|l ls Hl Hls IH]; [done|].
  cbn [omap list_omap]. by rewrite (strip_prefix_None _ _ Hl).
Qed.

(** The value found for a simple variable in a merged document is the one
    on the line written for it. *)
Lemma search_merged var uv items i l v' :
  simple_ok uv -> no_nl var ->
  Forall no_nl (flat_map (inst uv) items) ->
  items !! i = Some (Simple l) ->
  forallb (quiet_for (var ++ txt "=")) (take i items) = true ->
  replace_simple (simple uv) l = var ++ txt "=" ++ v' ->
  search_simple var true (join_nl (flat_map (inst uv) items)) = Some v'.
Proof.
  intros Hok Hvar Hnl Hi Hb Hrep.
  rewrite search_join by done.
  rewrite <- (take_drop_middle items i _ Hi).
  rewrite flat_map_app. cbn [flat_map inst].
  rewrite omap_app, (quiet_no_value _ _ (quiet_items _ uv _ Hok Hb)).
  rewrite Hrep, app_assoc. cbn [app omap list_omap].
  by rewrite (proj2 (strip_prefix_spec _ _ v') eq_refl).
Qed.

(** On the template line of a simple variable the loop writes a line of
    that variable. *)
Lemma replaced_line uv var l :
  simple_ok uv -> var ∈ simple_vars ->
  starts_with (var ++ txt "=") l = true ->
  exists v', replace_simple (simple uv) l = var ++ txt "=" ++ v'.
Proof.
  intros Hok Hvar Hl.
  destruct (replace_simple_cases (simple uv) l)
    as [->|(var' & v & Hin & Hs & ->)].
  - apply starts_with_inv in Hl as [t ->]. exists t. by rewrite <- app_assoc.
  - exists v. unfold simple_ok in Hok. rewrite Forall_forall in Hok.
    by rewrite (simple_prefix_exclusive var var' l Hvar (Hok _ Hin) Hl Hs).
Qed.

Lemma merge_text config :
  let uv := _extract_user_values config in
  no_marker uv ->
  merge config example_config = join_nl (flat_map (inst uv) template_items).
Proof.
  intros uv Hnm. unfold merge, normalize.
  cbn [Normalizer.example_config values init]. fold uv.
  rewrite split_example_config.
  by rewrite merged_lines; [|apply extract_simple_ok|].
Qed.

(** What is extracted from a merged document. *)
Lemma merged_extract config :
  let uv := _extract_user_values config in
  let uv' := _extract_user_values (merge config example_config) in
  no_marker uv -> entries_one_line uv ->
  findall (txt "REPO_MAPPINGS") (merge config example_config) = mappings uv
  /\ findall (txt "REPO_IDE_CONFIGS") (merge config example_config)
     = ide_configs uv
  /\ findall (txt "REPO_CONFIGS") (merge config example_config)
     = repo_configs uv
  /\ findall (txt "REPO_MODULES") (merge config example_config)
     = repo_modules uv
  /\ Forall (fun l => replace_simple (simple uv') l
                      = replace_simple (simple uv) l) example_lines.
Proof.
  intros uv uv' Hnm He. unfold uv'. rewrite merge_text by done. fold uv.
  pose proof (extract_simple_ok config) as Hok. fold uv in Hok.
  pose proof (merged_no_nl config He) as Hnl. fold uv in Hnl.
  assert (well_formed (mappings uv)) as Hwm by apply findall_well_formed.
  assert (forall name, well_formed
            (resolve_keys (build_full_to_short (mappings uv))
               (findall name config))) as Hwr.
  { intros name. apply resolve_keys_well_formed; [done|].
    apply findall_well_formed. }
  split_and!.
  - destruct (entries_of_mappings_block uv Hwm) as [H1 H2].
    apply (findall_merged (txt "REPO_MAPPINGS") uv _ 27 MappingsBlock);
      [done|decide_closed|done|reflexivity|vm_compute; reflexivity
      |vm_compute; reflexivity|exact H1|exact H2].
  - destruct (entries_of_block (txt "REPO_IDE_CONFIGS") _
                (Hwr (txt "REPO_IDE_CONFIGS"))) as [H1 H2].
    apply (findall_merged (txt "REPO_IDE_CONFIGS") uv _ 38 IdeBlock);
      [done|decide_closed|done|reflexivity|vm_compute; reflexivity
      |vm_compute; reflexivity|exact H1|exact H2].
  - destruct (entries_of_block (txt "REPO_CONFIGS") _
                (Hwr (txt "REPO_CONFIGS"))) as [H1 H2].
    apply (findall_merged (txt "REPO_CONFIGS") uv _ 50 CiBlock);
      [done|decide_closed|done|reflexivity|vm_compute; reflexivity
      |vm_compute; reflexivity|exact H1|exact H2].
  - destruct (entries_of_block (txt "REPO_MODULES") _
                (Hwr (txt "REPO_MODULES"))) as [H1 H2].
    apply (findall_merged (txt "REPO_MODULES") uv _ 68 ModulesBlock);
      [done|decide_closed|done|reflexivity|vm_compute; reflexivity
      |vm_compute; reflexivity|exact H1|exact H2].
  - apply Forall_forall. intros l Hl.
    set (out := join_nl (flat_map (inst uv) template_items)).
    pose proof (extract_simple_ok out) as Hok'.
    destruct (is_simple_line l) eqn:Es.
    2:{ by rewrite !replace_simple_plain. }
    unfold is_simple_line in Es.
    apply existsb_exists in Es as (var & Hvar%list_elem_of_In & Hs).
    destruct (simple_line_position var Hvar)
      as (i & l' & Hi & Hl' & Hb & _ & Huniq).
    assert (l = l') as <-.
    { assert (In l (lines_with (var ++ txt "=") example_lines)) as Hin.
      { apply List.filter_In. split; [by apply list_elem_of_In|done]. }
      rewrite Huniq in Hin. by destruct Hin as [->|[]]. }
    destruct (replaced_line uv var l Hok Hvar Hs) as [v' Hv'].
    rewrite Hv'. apply replace_simple_get; [done| |done].
    cbn [_extract_user_values simple].
    rewrite dict_get_extract_simple by done.
    apply (search_merged var uv _ i l); try done.
    by apply simple_vars_no_nl.
Qed.

(** C4, as far as it holds.  When no line written for a simple variable
    holds the marker of the REPO_MAPPINGS declaration, no extracted key or
    value runs over a line, and no shorthand of the alias table is also a
    canonical name, merging the merged document against the same template
    gives the merged document again. *)
Theorem merge_idempotent config :
  let uv := _extract_user_values config in
  no_marker uv -> entries_one_line uv -> aliases_separate (mappings uv) ->
  merge (merge config example_config) example_config
  = merge config example_config.
Proof.
  intros uv Hnm He Hsep.
  destruct (merged_extract config Hnm He) as (Hm & Hi & Hc & Hmo & Hs).
  set (out := merge config example_config) in *.
  unfold merge at 1. unfold normalize.
  cbn [Normalizer.example_config values init].
  unfold out at 2. unfold merge, normalize.
  cbn [Normalizer.example_config values init].
  f_equal. rewrite split_example_config. unfold normalize_lines.
  apply normalize_loop_ext; cbn [_extract_user_values mappings ide_configs
    repo_configs repo_modules].
  - exact Hs.
  - exact Hm.
  - rewrite Hm, Hi. apply resolve_keys_idem. exact Hsep.
  - rewrite Hm, Hc. apply resolve_keys_idem. exact Hsep.
  - rewrite Hm, Hmo. apply resolve_keys_idem. exact Hsep.
Qed.

Lemma scenario_aliases_separate :
  aliases_separate (mappings (_extract_user_values scenario_config)).
Proof.
  replace (mappings (_extract_user_values scenario_config))
    with [(txt "acmd", txt "Org-Android")] by (vm_compute; reflexivity).
  intros s f s' f'. rewrite !elem_of_cons, !elem_of_nil.
  intros [[= -> ->]|[]] [[= -> ->]|[]]. discriminate.
Defined.

Lemma merge_idempotent_witness :
  merge (merge scenario_config example_config) example_config
  = merge scenario_config example_config.
Proof.
  exact (merge_idempotent scenario_config scenario_no_marker
           scenario_one_line scenario_aliases_separate).
Defined.

(** C4 as it is worded fails: a shorthand may be the canonical name of
    another alias, and then the second merge resolves the keys once more.
    Here the first merge writes the entry under [core], the second under
    [c]. *)
Lemma merge_not_idempotent :
  lines_with (txt "REPO_CONFIGS[")
    (split_nl (merge chained_config example_config))
  = [q "REPO_CONFIGS[core]=`make`"]
  /\ lines_with (txt "REPO_CONFIGS[")
       (split_nl (merge (merge chained_config example_config) example_config))
     = [q "REPO_CONFIGS[c]=`make`"]
  /\ merge (merge chained_config example_config) example_config
     <> merge chained_config example_config.
Proof.
  assert (lines_with (txt "REPO_CONFIGS[")
            (split_nl (merge chained_config example_config))
          = [q "REPO_CONFIGS[core]=`make`"]) as H1
    by (vm_compute; reflexivity).
  assert (lines_with (txt "REPO_CONFIGS[")
            (split_nl (merge (merge chained_config example_config)
                         example_config))
          = [q "REPO_CONFIGS[c]=`make`"]) as H2
    by (vm_compute; reflexivity).
  split_and!; [exact H1|exact H2|].
  intros E. rewrite E, H1 in H2. clear E H1.
  apply (f_equal (fun ls => length (default [] (head ls)))) in H2.
  vm_compute in H2. discriminate H2.
Qed.

(** The same with the marker on the line of a simple variable: every merge
    doubles the alias entries. *)
Lemma merge_not_idempotent_marker :
  lines_with (txt "REPO_MAPPINGS[")
    (split_nl (merge (merge two_statements_config example_config)
                 example_config))
  = [q "REPO_MAPPINGS[acmd]=`Org-Android`"; q "REPO_MAPPINGS[acmd]=`Org-Android`";
     q "REPO_MAPPINGS[acmd]=`Org-Android`"; q "REPO_MAPPINGS[acmd]=`Org-Android`"].
Proof. vm_compute. reflexivity. Qed.

(** And with a value and a key that run over a line: the second merge
    finds another entry than the first. *)
Lemma merge_not_idempotent_multi_line :
  repo_configs (_extract_user_values nested_config)
  <> repo_configs (_extract_user_values (merge nested_config example_config)).
Proof. vm_compute. discriminate. Qed.

End IdempotenceFacts.

(** ** The validator: issues, fixes and reruns *)

Section ValidatorAccount.

Import Validator Spec.

Lemma set_true_other c d b : c <> b -> set_true c d b = d b.
Proof. intros H. unfold set_true. destruct c, b; done. Qed.

Lemma set_true_same c d : set_true c d c = true.
Proof. unfold set_true. by destruct c. Qed.

(** The second pass, accounted for: the arrays it adds a declaration for,
    in the order it meets their first assignments. *)
Lemma second_pass_account needs lines p :
  exists arrays,
    NoDup arrays
    /\ (forall b, b ∈ arrays <->
                  needs b = true /\ declared p b = false
                  /\ existsb (assigns b) lines = true)
    /\ issues (self (fold_left (second_pass_line needs) lines p))
       = issues (self p) ++ map issue_text arrays
    /\ fixes (self (fold_left (second_pass_line needs) lines p))
       = fixes (self p) ++ map fix_text arrays
    /\ fixed (fold_left (second_pass_line needs) lines p)
       = fixed p || negb (bool_decide (arrays = []))
    /\ length (result (fold_left (second_pass_line needs) lines p))
       = length (result p) + length lines + 2 * length arrays.
Proof.
  revert p. induction lines as [|l lines IH]; intros p.
  - exists []. simpl. rewrite !app_nil_r, orb_false_r. split_and!; try done.
    + constructor.
    + intros b. split; [by intros ?%elem_of_nil|by intros (_ & _ & ?)].
    + lia.
  - cbn [fold_left].
    destruct (IH (second_pass_line needs p l))
      as (arrays & Hnd & Hin & Hi & Hf & Hfx & Hlen).
    destruct (second_pass_line_cases needs p l)
      as [[Hq E]|(c & Hn & Hd & Ha & E)]; rewrite E in *; simpl in *.
    + exists arrays. split_and!; try done.
      * intros b. rewrite Hin. split.
        -- intros (? & ? & ->). by rewrite orb_true_r.
        -- intros (Hb & Hdb & [Hl|Hl]%orb_true_iff); [|done].
           specialize (Hq b). by rewrite Hb, Hdb, Hl in Hq.
      * rewrite Hlen, length_app. simpl. lia.
    + exists (c :: arrays). split_and!.
      * constructor; [|done]. rewrite Hin. intros (_ & Hc & _).
        by rewrite set_true_same in Hc.
      * intros b. rewrite elem_of_cons, Hin.
        destruct (decide (b = c)) as [->|Hne].
        -- split; [intros _|by left]. by rewrite Ha.
        -- rewrite set_true_other by done.
           assert (assigns b l = false) as ->.
           { destruct (assigns b l) eqn:Hb; [|done].
             by destruct (Hne (assigns_exclusive _ _ _ Hb Ha)). }
           simpl. split; [by intros [?|?]|by right].
      * by rewrite Hi, <- app_assoc.
      * by rewrite Hf, <- app_assoc.
      * rewrite Hfx. by destruct (fixed p).
      * rewrite Hlen, length_app. simpl. lia.
Qed.

(** The same for the missing-declaration pass on a document. *)
Lemma fix_missing_account config v :
  exists arrays,
    NoDup arrays
    /\ (forall a, a ∈ arrays <-> undeclared a (split_nl config) = true)
    /\ issues (_fix_missing_declarations config v).2
       = issues v ++ map issue_text arrays
    /\ fixes (_fix_missing_declarations config v).2
       = fixes v ++ map fix_text arrays
    /\ (_fix_missing_declarations config v).1.2
       = negb (bool_decide (arrays = []))
    /\ length (split_nl (_fix_missing_declarations config v).1.1)
       = length (split_nl config) + 2 * length arrays.
Proof.
  destruct (fix_missing_lines config v) as (R & p & -> & Hp & HR & Hsplit).
  destruct (second_pass_account (first_pass (split_nl config)).1
              (split_nl config)
              {| declared := (first_pass (split_nl config)).2; result := [];
                 fixed := false; self := v |})
    as (arrays & Hnd & Hin & Hi & Hf & Hfx & Hlen).
  rewrite <- Hp in Hi, Hf, Hfx, Hlen. simpl in *.
  exists arrays. split_and!; try done.
  - intros a. rewrite Hin. unfold undeclared.
    destruct (first_pass_spec (split_nl config) a) as [-> ->].
    destruct (existsb (assigns a) (split_nl config));
      destruct (existsb (declares a) (split_nl config)); simpl;
      intuition congruence.
  - by rewrite Hsplit, <- HR.
Qed.

Lemma count_issue_app a v arrays fx :
  NoDup arrays ->
  count_issue a {| issues := issues v ++ map issue_text arrays; fixes := fx |}
  = count_issue a v + (if bool_decide (a ∈ arrays) then 1 else 0).
Proof.
  intros Hnd. unfold count_issue. simpl. rewrite filter_app, length_app.
  f_equal. induction Hnd as [|b arrays Hb Hnd IH]; [done|].
  cbn [map]. rewrite filter_cons.
  destruct (decide (issue_text b = issue_text a)) as [E|E].
  - apply issue_text_inj in E as ->. simpl. rewrite IH.
    rewrite (bool_decide_eq_false_2 _ Hb).
    rewrite bool_decide_eq_true_2; [done|by left].
  - rewrite IH. destruct (decide (a ∈ arrays)) as [Hin|Hin].
    + rewrite !bool_decide_eq_true_2; [done|by right|done].
    + rewrite !bool_decide_eq_false_2; [done| |done].
      intros [->|?]%elem_of_cons; [by destruct E|done].
Qed.

(** Every array that is assigned to in the returned document is declared
    in it. *)
Lemma fixed_output_declared config v a :
  existsb (assigns a) (split_nl (_fix_missing_declarations config v).1.1) = true ->
  existsb (declares a) (split_nl (_fix_missing_declarations config v).1.1) = true.
Proof.
  destruct (fix_missing_lines config v) as (R & p & -> & Hp & HR & Hsplit).
  simpl. rewrite Hsplit. intros Hb.
  set (needs := (first_pass (split_nl config)).1) in *.
  set (d0 := (first_pass (split_nl config)).2) in *.
  set (p0 := {| declared := d0; result := []; fixed := false; self := v |})
    in *.
  destruct (second_pass_inv needs (split_nl config) p0)
    as (R' & HR' & Hsub & Hin & Hdec & _ & Hall & _).
  assert (R' = R) as -> by (by rewrite <- HR, Hp).
  destruct (first_pass_spec (split_nl config) a) as [Hn1 Hd1].
  fold needs in Hn1. fold d0 in Hd1.
  assert (needs a = true) as Hna.
  { rewrite Hn1. apply existsb_exists in Hb as (x & Hx & Hxa).
    apply existsb_exists.
    destruct (Hin x (proj2 (list_elem_of_In _ _) Hx)) as [Hxl|[->|[e ->]]].
    - exists x. split; [by apply list_elem_of_In|done].
    - by rewrite assigns_blank in Hxa.
    - by rewrite assigns_guard in Hxa. }
  destruct (Hdec a) as [Hd|Hg].
  - apply Hall; [done|]. by rewrite <- Hn1.
  - simpl in Hd. rewrite Hd1 in Hd.
    apply existsb_exists in Hd as (x & Hx & Hxd).
    apply existsb_exists. exists x. split; [|done].
    apply list_elem_of_In. apply (sublist_subseteq _ _ Hsub).
    by apply list_elem_of_In.
  - apply existsb_exists. exists (guard_line a).
    split; [by apply list_elem_of_In|apply declares_guard].
Qed.

(** A guard the second pass writes belongs to an array that needs a
    declaration and has none yet. *)
Lemma second_pass_origin needs lines p :
  exists R,
    result (fold_left (second_pass_line needs) lines p) = result p ++ R
    /\ Forall (fun x => x ∈ lines \/ x = []
                 \/ exists b, needs b = true /\ declared p b = false
                              /\ x = guard_line b) R.
Proof.
  revert p. induction lines as [|l lines IH]; intros p.
  - exists []. simpl. by rewrite app_nil_r.
  - cbn [fold_left].
    destruct (IH (second_pass_line needs p l)) as (R & HR & Hall).
    destruct (second_pass_line_cases needs p l)
      as [[Hq E]|(c & Hn & Hd & Ha & E)]; rewrite E in *; simpl in *.
    + exists (l :: R). rewrite HR, <- app_assoc. split; [done|].
      constructor; [left; by left|].
      eapply Forall_impl; [exact Hall|]. simpl.
      intros x [?|[?|?]]; [left; by right|right; by left|right; by right].
    + exists (guard_line c :: [] :: l :: R). rewrite HR, <- app_assoc.
      split; [done|].
      constructor; [right; right; by exists c|].
      constructor; [right; by left|].
      constructor; [left; by left|].
      eapply Forall_impl; [exact Hall|]. simpl.
      intros x [?|[?|(b & Hb & Hdb & ->)]];
        [left; by right|right; by left|].
      right; right. exists b. split_and!; [done| |done].
      unfold set_true in Hdb. by destruct (array_eqb c b).
Qed.

(** X1. What a run of [validate_and_fix] records and writes: there is a
    list of arrays without repetition, holding exactly the arrays that some
    line assigns to and no line declares, such that the run appends one
    issue and one fix per array of the list to the issues and fixes the
    validator already holds, returns [had_issues = True] exactly when the
    list is not empty, and returns a document with two more lines per array
    of the list. *)
Theorem validate_and_fix_account config v :
  exists arrays,
    NoDup arrays
    /\ (forall a, a ∈ arrays <-> undeclared a (split_nl config) = true)
    /\ issues (validate_and_fix config v).2 = issues v ++ map issue_text arrays
    /\ fixes (validate_and_fix config v).2 = fixes v ++ map fix_text arrays
    /\ (validate_and_fix config v).1.2 = negb (bool_decide (arrays = []))
    /\ length (split_nl (validate_and_fix config v).1.1)
       = length (split_nl config) + 2 * length arrays.
Proof. rewrite validate_and_fix_eq. apply fix_missing_account. Qed.

(** X2. [validate_and_fix] records the issue of an array once when some
    line assigns to the array and no line of the document holds its
    [declare -gA], wherever that line stands, and not at all otherwise; a
    declaration that comes after the first assignment is therefore not
    reported. *)
Theorem issue_recorded_iff_undeclared config v a :
  count_issue a (validate_and_fix config v).2
  = count_issue a v + (if undeclared a (split_nl config) then 1 else 0).
Proof.
  rewrite validate_and_fix_eq.
  destruct (fix_missing_account config v)
    as (arrays & Hnd & Hin & Hi & Hf & _).
  destruct (_fix_missing_declarations config v) as [[out had] [iss fx]].
  simpl in *. subst iss.
  rewrite (count_issue_app a v arrays fx Hnd). f_equal.
  destruct (undeclared a (split_nl config)) eqn:E.
  - rewrite bool_decide_eq_true_2; [done|by apply Hin].
  - rewrite bool_decide_eq_false_2; [done|]. rewrite Hin. congruence.
Qed.

(** X3. [had_issues] is [True] exactly when one of the three arrays is
    assigned to and nowhere declared.  When it is [False] the document and
    the validator come back as they were; when it is [True] the returned
    document differs from the input. *)
Theorem had_issues_iff_undeclared config v :
  (validate_and_fix config v).1.2
  = existsb (fun a => undeclared a (split_nl config)) array_names
  /\ ((validate_and_fix config v).1.2 = false ->
      validate_and_fix config v = (config, false, v))
  /\ ((validate_and_fix config v).1.2 = true ->
      (validate_and_fix config v).1.1 <> config).
Proof.
  rewrite validate_and_fix_eq.
  destruct (fix_missing_account config v)
    as (arrays & Hnd & Hin & Hi & Hf & Hhad & Hlen).
  assert (existsb (fun a => undeclared a (split_nl config)) array_names
          = negb (bool_decide (arrays = []))) as Hex.
  { destruct arrays as [|b arrays].
    - simpl. rewrite !orb_false_r.
      assert (forall a, undeclared a (split_nl config) = false) as H0.
      { intros a. destruct (undeclared a (split_nl config)) eqn:E; [|done].
        apply Hin in E. by apply elem_of_nil in E. }
      by rewrite !H0.
    - rewrite bool_decide_eq_false_2 by done. simpl.
      assert (undeclared b (split_nl config) = true) as Hb
        by (apply Hin; by left).
      destruct b; rewrite Hb; by rewrite ?orb_true_r. }
  split_and!.
  - by rewrite Hhad.
  - intros Hfalse. rewrite <- validate_and_fix_eq. apply declared_noop.
    intros a Ha. rewrite Hhad, <- Hex in Hfalse.
    assert (undeclared a (split_nl config) = false) as Hu.
    { destruct (undeclared a (split_nl config)) eqn:E; [|done].
      assert (existsb (fun a => undeclared a (split_nl config)) array_names
              = true) as Ht; [|congruence].
      apply existsb_exists. exists a. split; [|done].
      destruct a; simpl; tauto. }
    unfold undeclared in Hu. rewrite Ha in Hu. simpl in Hu.
    by destruct (existsb (declares a) (split_nl config)).
  - intros Htrue Heq. rewrite Heq in Hlen. rewrite Hhad in Htrue.
    destruct arrays; [done|]. simpl in Hlen. lia.
Qed.

(** X4. A second run changes nothing: for every document, [validate_and_fix]
    on the document a run has returned gives that document back with
    [had_issues = False] and records nothing. *)
Theorem validate_and_fix_idempotent config v v' :
  validate_and_fix (validate_and_fix config v).1.1 v'
  = ((validate_and_fix config v).1.1, false, v').
Proof.
  apply declared_noop. intros a. rewrite validate_and_fix_eq.
  apply fixed_output_declared.
Qed.

(** X5. Every line of the document [validate_and_fix] returns is a line of
    the input, a blank line, or the declaration guard of an array that is
    assigned to and nowhere declared in the input. *)
Theorem validator_inserts_guards_only config v :
  Forall (fun x => x ∈ split_nl config \/ x = []
            \/ exists a, undeclared a (split_nl config) = true
                         /\ x = guard_line a)
         (split_nl (validate_and_fix config v).1.1).
Proof.
  rewrite validate_and_fix_eq.
  destruct (fix_missing_lines config v) as (R & p & -> & Hp & HR & Hsplit).
  simpl. rewrite Hsplit.
  destruct (second_pass_origin (first_pass (split_nl config)).1
              (split_nl config)
              {| declared := (first_pass (split_nl config)).2; result := [];
                 fixed := false; self := v |}) as (R' & HR' & Hall).
  rewrite <- Hp in HR'. simpl in HR'. rewrite HR in HR'. subst R'.
  eapply Forall_impl; [exact Hall|]. simpl.
  intros x [?|[?|(b & Hb & Hdb & ->)]]; [by left|right; by left|].
  right; right. exists b. split; [|done]. unfold undeclared.
  destruct (first_pass_spec (split_nl config) b) as [H1 H2].
  rewrite <- H1, <- H2, Hb, Hdb. done.
Qed.

(** A declaration after the first assignment: nothing is reported. *)
Lemma late_declaration_not_reported :
  validate_and_fix late_declaration_config fresh
  = (join_nl [Normalizer.q "REPO_MODULES[acmd]=`core`";
              txt "declare -gA REPO_MODULES";
              guard_line REPO_CONFIGS; [];
              Normalizer.q "REPO_CONFIGS[acmd]=`build`"],
     true,
     {| issues := [issue_text REPO_CONFIGS];
        fixes := [fix_text REPO_CONFIGS] |}).
Proof. vm_compute. done. Qed.

End ValidatorAccount.

(** ** The extraction: what is read, and in which order *)

Section ExtractMore.

Import Normalizer Spec.

Lemma map_fst_omap_sublist (f : str -> option str) (l : list str) :
  map fst (omap (fun x => pair x <$> f x) l) `sublist_of` l.
Proof.
  induction l as [|x l IH]; [done|]. cbn [omap list_omap].
  destruct (f x); simpl; by constructor.
Qed.

Lemma dict_get_None var d v : dict_get var d = None -> (var, v) ∉ d.
Proof.
  induction d as [|[k w] d IH]; simpl; [by intros _ ?%elem_of_nil|].
  destruct (decide (k = var)) as [->|Hne].
  - by rewrite bool_decide_eq_true_2.
  - rewrite bool_decide_eq_false_2 by done. intros H.
    intros [[= ? ?]|Hin]%elem_of_cons; [by destruct Hne|by apply IH in Hin].
Qed.

Lemma findall_lines name config :
  name ∈ table_names -> entries_closed config ->
  findall name config = omap (line_entry name) (split_nl config).
Proof.
  intros Hname Hclosed. rewrite <- (join_split config) at 1.
  apply findall_join.
  - by apply table_names_no_nl.
  - apply split_nl_no_nl.
  - apply Forall_forall. intros l Hl. by apply Hclosed.
Qed.

Lemma build_full_to_short_snoc ms s f :
  build_full_to_short (ms ++ [(s, f)]) = <[f := s]> (build_full_to_short ms).
Proof. unfold build_full_to_short. by rewrite fold_left_app. Qed.

Lemma full_to_short_last ms k :
  build_full_to_short ms !! k = last_shorthand k ms.
Proof.
  unfold last_shorthand.
  induction ms as [|[s f] ms IH] using rev_ind; [done|].
  rewrite build_full_to_short_snoc, filter_app, filter_cons, filter_nil.
  simpl. destruct (decide (f = k)) as [->|Hne].
  - by rewrite lookup_insert_eq, last_snoc.
  - rewrite lookup_insert_ne by done. by rewrite app_nil_r.
Qed.

Lemma full_to_short_canonical ms k :
  k ∈ map snd ms -> is_Some (build_full_to_short ms !! k).
Proof.
  intros Hk. rewrite full_to_short_last. unfold last_shorthand.
  apply list_elem_of_fmap in Hk as ([s f] & -> & Hin).
  assert ((s, f) ∈ filter (fun e : str * str => e.2 = (s, f).2) ms) as Hf
    by (by apply list_elem_of_filter).
  destruct (filter (fun e : str * str => e.2 = (s, f).2) ms) as [|e l] eqn:E
    using rev_ind; [by apply elem_of_nil in Hf|].
  rewrite last_snoc. by eexists.
Qed.

Lemma resolve_keys_not_canonical ms raw :
  aliases_separate ms ->
  Forall (fun kv => kv.1 ∉ map snd ms) (resolve_keys (build_full_to_short ms) raw).
Proof.
  intros Hsep. unfold resolve_keys. apply Forall_forall.
  intros kv ([k v] & -> & Hin)%list_elem_of_fmap. simpl.
  destruct (build_full_to_short ms !! k) as [s|] eqn:E; simpl.
  - apply build_full_to_short_lookup in E.
    intros ([s' f'] & Heq & Hin')%list_elem_of_fmap. simpl in Heq. subst f'.
    by destruct (Hsep _ _ _ _ E Hin').
  - intros Hk%full_to_short_canonical. rewrite E in Hk. by destruct Hk.
Qed.

(** X6. What the extraction returns is well formed, whatever the document:
    the names of the simple variables it found are among the four known
    names and come in the order of that list, no value of a simple variable
    holds a line feed, and in the alias entries and the keyed entries of
    the three categories every key is non-empty and holds no closing
    bracket and no value holds a double quote. *)
Theorem extracted_values_well_formed config :
  let uv := _extract_user_values config in
  map fst (simple uv) `sublist_of` simple_vars
  /\ Forall (fun kv => no_nl kv.2) (simple uv)
  /\ well_formed (mappings uv)
  /\ well_formed (ide_configs uv)
  /\ well_formed (repo_configs uv)
  /\ well_formed (repo_modules uv).
Proof.
  intros uv. split_and!.
  - unfold uv. cbn [_extract_user_values simple].
    rewrite extract_simple_spec. apply map_fst_omap_sublist.
  - apply (extract_simple_one_line config).
  - apply findall_well_formed.
  - apply resolve_keys_well_formed; apply findall_well_formed.
  - apply resolve_keys_well_formed; apply findall_well_formed.
  - apply resolve_keys_well_formed; apply findall_well_formed.
Qed.

(** X7. In a document whose table lines each hold a whole entry, the
    extraction goes line by line: the alias entries are the entries of the
    lines that start with REPO_MAPPINGS and a bracket, in document order,
    and the keyed entries of a category are the entries of the lines that
    start with its name and a bracket, in document order, with their keys
    passed through the reverse alias map. *)
Theorem extraction_line_by_line config :
  entries_closed config ->
  let uv := _extract_user_values config in
  let full_to_short := build_full_to_short (mappings uv) in
  mappings uv = omap (line_entry (txt "REPO_MAPPINGS")) (split_nl config)
  /\ ide_configs uv
     = resolve_keys full_to_short
         (omap (line_entry (txt "REPO_IDE_CONFIGS")) (split_nl config))
  /\ repo_configs uv
     = resolve_keys full_to_short
         (omap (line_entry (txt "REPO_CONFIGS")) (split_nl config))
  /\ repo_modules uv
     = resolve_keys full_to_short
         (omap (line_entry (txt "REPO_MODULES")) (split_nl config)).
Proof.
  intros Hclosed uv m. unfold m, uv.
  cbn [_extract_user_values mappings ide_configs repo_configs repo_modules].
  split_and!; [|f_equal..]; apply findall_lines; try done;
    unfold table_names; rewrite !elem_of_cons; tauto.
Qed.

Lemma scenario_entries_closed : entries_closed scenario_config.
Proof.
  intros name l Hname Hl. revert Hname. unfold table_names.
  rewrite !elem_of_cons, elem_of_nil. intros [->|[->|[->|[->|[]]]]];
    revert Hl; vm_compute split_nl; rewrite !elem_of_cons, elem_of_nil;
    intros [->|[->|[->|[]]]]; reflexivity.
Defined.

Lemma extraction_line_by_line_witness :
  mappings (_extract_user_values scenario_config)
  = omap (line_entry (txt "REPO_MAPPINGS")) (split_nl scenario_config).
Proof.
  exact (proj1 (extraction_line_by_line scenario_config
                  scenario_entries_closed)).
Defined.

(** X8. The value of a simple variable is the rest of the first line that
    starts with its name and an equals sign; the variable is absent from
    the extracted dict when no line starts so, and a name outside the four
    known ones is never in the dict. *)
Theorem simple_value_lookup config var :
  dict_get var (simple (_extract_user_values config))
  = if bool_decide (var ∈ simple_vars)
    then head (omap (strip_prefix (var ++ txt "=")) (split_nl config))
    else None.
Proof.
  cbn [_extract_user_values simple].
  destruct (decide (var ∈ simple_vars)) as [Hin|Hout].
  - rewrite bool_decide_eq_true_2 by done.
    rewrite dict_get_extract_simple by done.
    rewrite <- (join_split config) at 1. apply search_join.
    + by apply simple_vars_no_nl.
    + apply split_nl_no_nl.
  - rewrite bool_decide_eq_false_2 by done.
    destruct (dict_get var (extract_simple config)) as [v|] eqn:E; [|done].
    apply dict_get_elem_of in E.
    pose proof (extract_simple_ok config) as Hok. unfold simple_ok in Hok.
    cbn [_extract_user_values simple] in Hok.
    rewrite Forall_forall in Hok. by destruct (Hout (Hok _ E)).
Qed.

(** X9. The reverse alias map sends a canonical name to the shorthand of
    the last alias entry with that canonical name (a later entry overwrites
    an earlier one), and has no entry for a name that is no canonical name
    of the alias table. *)
Theorem full_to_short_last_wins mappings k :
  build_full_to_short mappings !! k = last_shorthand k mappings.
Proof. apply full_to_short_last. Qed.

(** X10. When no shorthand of the alias table is also a canonical name in
    it, no key of an extracted keyed entry is a canonical name of the alias
    table: every key that names a repository by its canonical name has been
    replaced by a shorthand. *)
Theorem resolved_keys_not_canonical config :
  let uv := _extract_user_values config in
  aliases_separate (mappings uv) ->
  Forall (fun kv => kv.1 ∉ map snd (mappings uv))
         (ide_configs uv ++ repo_configs uv ++ repo_modules uv).
Proof.
  intros uv Hsep. unfold uv in *.
  cbn [_extract_user_values mappings ide_configs repo_configs repo_modules]
    in *.
  rewrite !Forall_app. split_and!; by apply resolve_keys_not_canonical.
Qed.

Lemma resolved_keys_not_canonical_witness :
  let uv := _extract_user_values scenario_config in
  Forall (fun kv => kv.1 ∉ map snd (mappings uv))
         (ide_configs uv ++ repo_configs uv ++ repo_modules uv).
Proof.
  exact (resolved_keys_not_canonical scenario_config
           scenario_aliases_separate).
Defined.

(** X11. Writing and reading back: the entry lines the merge writes for a
    list of entries, joined by line feeds, are read back by the extraction
    as that list, for every table name and every list of entries with
    non-empty keys without closing bracket and values without double quote,
    also when keys or values run over several lines. *)
Theorem findall_formatted name entries :
  well_formed entries ->
  findall name (join_nl (map (format_entry name) entries)) = entries.
Proof.
  unfold findall.
  induction entries as [|[k v] entries IH]; intros Hwf; [done|].
  inversion Hwf as [|? ? (Hk & Hrb & Hdq) Hwf']; subst. simpl in Hk, Hrb, Hdq.
  specialize (IH Hwf').
  assert (forall rest,
            match_entry name (format_entry name (k, v) ++ rest)
            = Some (k, v, length (format_entry name (k, v)))) as Hm.
  { intros rest. apply match_entry_spec. split_and!; try done. by exists rest. }
  destruct entries as [|e entries].
  - cbn [map join_nl].
    rewrite (findall_resume name _ k v _
               (eq_trans (f_equal (match_entry name) (eq_sym (app_nil_r _)))
                         (Hm []))).
    by rewrite drop_all.
  - change (join_nl (map (format_entry name) ((k, v) :: e :: entries)))
      with (format_entry name (k, v)
            ++ NL :: join_nl (map (format_entry name) (e :: entries))).
    rewrite (findall_resume name _ k v _ (Hm _)).
    rewrite drop_app_length. rewrite findall_from_eq.
    change (Ascii.eqb NL NL) with true. by rewrite IH.
Qed.

Lemma two_line_entries_well_formed : well_formed two_line_entries.
Proof.
  unfold well_formed, two_line_entries.
  repeat constructor; try done; simpl; decide_closed.
Defined.

Lemma findall_formatted_witness :
  findall (txt "REPO_CONFIGS")
    (join_nl (map (format_entry (txt "REPO_CONFIGS")) two_line_entries))
  = two_line_entries.
Proof.
  exact (findall_formatted (txt "REPO_CONFIGS") two_line_entries
           two_line_entries_well_formed).
Defined.

End ExtractMore.

(** ** The merge loop: what it copies, what it writes, where it stops *)

Section NormalizeMore.

Import Normalizer Template Spec.

Lemma plain_line_inv l :
  plain_line l = true ->
  is_simple_line l = false /\ contains mappings_marker l = false
  /\ is_header l = false.
Proof.
  unfold plain_line.
  destruct (is_simple_line l), (contains mappings_marker l), (is_header l);
    done.
Qed.

Lemma normalize_lines_plain uv lines :
  simple_ok uv -> forallb plain_line lines = true ->
  normalize_lines uv lines = lines.
Proof.
  intros Hok. induction lines as [|l lines IH]; intros Hall;
    [apply normalize_lines_nil|].
  cbn [forallb] in Hall. apply andb_prop in Hall as [Hl Hall].
  apply plain_line_inv in Hl as (H1 & H2 & H3).
  rewrite step_copy by done. by rewrite IH.
Qed.

Lemma flat_map_simple_or_copy uv ls :
  simple_ok uv ->
  flat_map (inst uv)
    (map (fun l => if is_simple_line l then Simple l else Copy l) ls)
  = map (replace_simple (simple uv)) ls.
Proof.
  intros Hok. induction ls as [|l ls IH]; [reflexivity|].
  cbn [map flat_map]. rewrite IH.
  destruct (is_simple_line l) eqn:E; cbn [inst app]; [reflexivity|].
  by rewrite replace_simple_plain.
Qed.

Lemma Forall_take_while {A} (P : A -> Prop) (f : A -> bool) (l : list A) :
  Forall P l -> Forall P (take_while f l).
Proof.
  induction 1 as [|x l Hx Hl IH]; simpl; [done|].
  destruct (f x); by constructor.
Qed.

Lemma take_while_all {A} (f : A -> bool) (l : list A) :
  Forall (fun x => f x = true) l -> take_while f l = l /\ drop_while f l = [].
Proof.
  induction 1 as [|x l Hx Hl [IH1 IH2]]; simpl; [done|].
  rewrite Hx. by rewrite IH1, IH2.
Qed.

Lemma entries_block_from (P : str -> Prop) name entries :
  P [] -> (forall kv, kv ∈ entries -> P (format_entry name kv)) ->
  Forall P (entries_block name entries).
Proof.
  intros Hb Hf. unfold entries_block. destruct entries as [|e entries]; [done|].
  constructor; [done|]. apply Forall_app. split; [|by constructor].
  apply Forall_forall. intros x (kv & -> & Hin)%list_elem_of_fmap.
  by apply Hf.
Qed.

Lemma mappings_block_from (P : str -> Prop) uv :
  P [] ->
  (forall kv, kv ∈ mappings uv -> P (format_entry (txt "REPO_MAPPINGS") kv)) ->
  Forall P (mappings_block uv).
Proof.
  intros Hb Hf. unfold mappings_block.
  destruct (mappings uv) as [|e entries]; [done|].
  constructor; [done|].
  apply Forall_forall. intros x (kv & -> & Hin)%list_elem_of_fmap.
  by apply Hf.
Qed.

Lemma origin_weaken uv (sub lines out : list str) :
  Forall (fun x => x ∈ lines) sub ->
  Forall (fun x => x ∈ sub \/ written_from uv x) out ->
  Forall (fun x => x ∈ lines \/ written_from uv x) out.
Proof.
  intros Hsub Hout. eapply Forall_impl; [exact Hout|]. simpl.
  intros x [Hx|Hx]; [left|by right].
  rewrite Forall_forall in Hsub. by apply Hsub.
Qed.

Lemma Forall_elem_of_tail (l : str) (rest : list str) :
  Forall (fun x => x ∈ l :: rest) rest.
Proof. apply Forall_forall. intros x Hx. by right. Qed.

Lemma normalize_loop_origin uv fuel lines :
  Forall (fun x => x ∈ lines \/ written_from uv x) (normalize_loop fuel uv lines).
Proof.
  revert lines. induction fuel as [|fuel IH]; intros lines; [by constructor|].
  destruct lines as [|l rest]; [by constructor|].
  cbn [normalize_loop].
  pose proof (Forall_elem_of_tail l rest) as Hrest.
  assert (replace_simple (simple uv) l ∈ l :: rest
          \/ written_from uv (replace_simple (simple uv) l)) as Hline.
  { destruct (replace_simple_cases (simple uv) l) as [E|(var & v & Hin & _ & E)];
      rewrite E; [left; by left|].
    right. right. left. by exists var, v. }
  assert (forall name entries,
            (forall kv, kv ∈ entries ->
                        written_from uv (format_entry name kv)) ->
            Forall (fun x => x ∈ l :: rest \/ written_from uv x)
                   (entries_block name entries)) as Hblock.
  { intros name entries H. apply entries_block_from.
    - right. by left.
    - intros kv Hkv. right. by apply H. }
  assert (forall f,
            Forall (fun x => x ∈ l :: rest \/ written_from uv x)
                   (take_while f rest)) as Htake.
  { intros f. apply Forall_take_while.
    eapply Forall_impl; [exact Hrest|]. by left. }
  destruct (contains mappings_marker (replace_simple (simple uv) l)).
  { constructor; [done|]. apply Forall_app. split.
    - apply mappings_block_from; [right; by left|].
      intros kv Hkv. right. do 2 right. left. by exists kv.
    - apply (origin_weaken uv (skip_to_section rest)); [|apply IH].
      by apply skip_to_section_Forall. }
  destruct (starts_with (txt "# Optional: IDE configuration")
              (replace_simple (simple uv) l)).
  { constructor; [done|]. rewrite !Forall_app. split_and!.
    - apply Htake.
    - apply Hblock. intros kv Hkv. do 3 right. left. by exists kv.
    - eapply origin_weaken; [|apply IH]. by do 2 apply Forall_drop_while. }
  destruct (starts_with (txt "# Optional: CI commands")
              (replace_simple (simple uv) l)).
  { constructor; [done|]. rewrite !Forall_app. split_and!.
    - apply Htake.
    - apply Hblock. intros kv Hkv. do 4 right. left. by exists kv.
    - eapply origin_weaken; [|apply IH].
      by apply Forall_skip_examples, Forall_drop_while. }
  destruct (starts_with (txt "# Optional: Modular builds")
              (replace_simple (simple uv) l)).
  { constructor; [done|]. rewrite !Forall_app. split_and!.
    - apply Htake.
    - apply Hblock. intros kv Hkv. do 5 right. by exists kv.
    - eapply origin_weaken; [|apply IH].
      by apply Forall_skip_examples, Forall_drop_while. }
  constructor; [done|]. by apply (origin_weaken uv rest); [|apply IH].
Qed.

(** X12. A template in which no line assigns a simple variable, holds the
    REPO_MAPPINGS marker or opens an optional section comes back from the
    merge as it is, whatever the user document holds: nothing of the user's
    data is written where the template has no place for it. *)
Theorem plain_template_unchanged user template :
  forallb plain_line (split_nl template) = true ->
  merge user template = template.
Proof.
  intros Hplain. unfold merge, normalize.
  cbn [Normalizer.example_config values init].
  rewrite normalize_lines_plain; [apply join_split|apply extract_simple_ok|done].
Qed.

Lemma plain_template_unchanged_witness :
  merge scenario_config plain_template = plain_template.
Proof.
  apply (plain_template_unchanged scenario_config plain_template).
  vm_compute. reflexivity.
Defined.

(** X13. The merge loop works section by section: at a template line that
    holds the section delimiter, and with no optional-section header before
    it, what is written for the lines before the delimiter does not depend
    on the lines from the delimiter on, and the other way round. *)
Theorem merge_section_by_section user xs d ys :
  let uv := _extract_user_values user in
  Forall (fun l => is_header l = false) xs ->
  contains (txt "===") d = true ->
  normalize_lines uv (xs ++ d :: ys)
  = normalize_lines uv xs ++ normalize_lines uv (d :: ys).
Proof.
  intros uv Hxs Hd. apply normalize_lines_section; [|done..].
  apply extract_simple_ok.
Qed.

Lemma merge_section_by_section_witness :
  let uv := _extract_user_values scenario_config in
  normalize_lines uv (take 37 example_lines ++ drop 37 example_lines)
  = normalize_lines uv (take 37 example_lines)
    ++ normalize_lines uv (drop 37 example_lines).
Proof.
  intros uv.
  change (drop 37 example_lines)
    with (default [] (example_lines !! 37) :: drop 38 example_lines).
  apply (merge_section_by_section scenario_config (take 37 example_lines)
           (default [] (example_lines !! 37)) (drop 38 example_lines)).
  - apply Forall_forallb_false. vm_compute. reflexivity.
  - vm_compute. reflexivity.
Defined.

(** X14. The merged document in full.  For every user document whose
    simple values do not bring the REPO_MAPPINGS marker into a line, the
    merge of the example template is: the twenty-six lines before the
    REPO_MAPPINGS declaration with the user's simple values substituted, the
    declaration, the user's alias block, the template up to the IDE examples,
    the user's IDE block, the template up to the first CI example, the
    user's CI block, the template from the blank line after the first CI
    example up to the first modules example, the user's modules block, and
    the template from the blank line after the first modules example to its
    end; every template line outside the dropped examples is kept as it is
    and in its place. *)
Theorem merged_document user :
  let uv := _extract_user_values user in
  no_marker uv ->
  merge user example_config
  = join_nl
      (map (replace_simple (simple uv)) (take 26 example_lines)
       ++ guard :: mappings_block uv
       ++ take 10 (drop 37 example_lines)
       ++ entries_block (txt "REPO_IDE_CONFIGS") (ide_configs uv)
       ++ take 11 (drop 51 example_lines)
       ++ entries_block (txt "REPO_CONFIGS") (repo_configs uv)
       ++ take 17 (drop 64 example_lines)
       ++ entries_block (txt "REPO_MODULES") (repo_modules uv)
       ++ drop 83 example_lines).
Proof.
  intros uv Hnm. rewrite merge_text by done. fold uv. f_equal.
  unfold template_items, before_guard, after_guard.
  rewrite flat_map_app, (flat_map_simple_or_copy uv) by apply extract_simple_ok.
  reflexivity.
Qed.

Lemma merged_document_witness :
  let uv := _extract_user_values scenario_config in
  merge scenario_config example_config
  = join_nl
      (map (replace_simple (simple uv)) (take 26 example_lines)
       ++ guard :: mappings_block uv
       ++ take 10 (drop 37 example_lines)
       ++ entries_block (txt "REPO_IDE_CONFIGS") (ide_configs uv)
       ++ take 11 (drop 51 example_lines)
       ++ entries_block (txt "REPO_CONFIGS") (repo_configs uv)
       ++ take 17 (drop 64 example_lines)
       ++ entries_block (txt "REPO_MODULES") (repo_modules uv)
       ++ drop 83 example_lines).
Proof. exact (merged_document scenario_config scenario_no_marker). Defined.

(** X15. A simple variable the user document does not set keeps the line
    the template has for it: under the conditions of the merge, the lines of
    the merged document that start with the name and an equals sign are
    those of the template. *)
Theorem unset_variable_keeps_template_line user var :
  let uv := _extract_user_values user in
  no_marker uv -> entries_one_line uv ->
  var ∈ simple_vars ->
  dict_get var (simple uv) = None ->
  lines_with (var ++ txt "=") (split_nl (merge user example_config))
  = lines_with (var ++ txt "=") example_lines.
Proof.
  intros uv Hnm He Hvar Hget.
  pose proof (extract_simple_ok user) as Hok. fold uv in Hok.
  rewrite merge_lines by done. fold uv.
  destruct (simple_line_position var Hvar) as (i & l & Hi & Hl & Hb & Ha & ->).
  rewrite (lines_with_single _ uv _ i _ Hok Hi Hb Ha). cbn [inst].
  assert (replace_simple (simple uv) l = l) as ->.
  { destruct (replace_simple_cases (simple uv) l)
      as [E|(var' & v & Hin & Hs & E)]; [done|].
    assert (var' ∈ simple_vars) as Hvar'.
    { unfold simple_ok in Hok. rewrite Forall_forall in Hok.
      apply (Hok _ Hin). }
    rewrite (simple_prefix_exclusive var var' l Hvar Hvar' Hl Hs) in Hget.
    by destruct (dict_get_None _ _ v Hget). }
  apply lines_with_all. by constructor.
Qed.

Lemma unset_variable_keeps_template_line_witness :
  lines_with (txt "BRANCH_PREFIX=")
    (split_nl (merge scenario_config example_config))
  = lines_with (txt "BRANCH_PREFIX=") example_lines.
Proof.
  apply (unset_variable_keeps_template_line scenario_config
           (txt "BRANCH_PREFIX") scenario_no_marker scenario_one_line).
  - decide_closed.
  - vm_compute. reflexivity.
Defined.

(** X16. The merge invents no line: for every user document and every
    template, each line the merge loop writes is a line of the template, a
    blank line, the line NAME=value of a simple variable extracted from the
    user document, or the entry line of an extracted alias or keyed entry
    under the name of its table. *)
Theorem merge_lines_origin user template :
  let uv := _extract_user_values user in
  Forall (fun x => x ∈ split_nl template \/ written_from uv x)
         (normalize_lines uv (split_nl template)).
Proof. intros uv. apply normalize_loop_origin. Qed.

(** X17. When no line after the REPO_MAPPINGS declaration holds the
    section delimiter, the merge loop drops the rest of the template: the
    output ends with the declaration and the user's alias block. *)
Theorem guard_without_delimiter uv l rest :
  contains mappings_marker (replace_simple (simple uv) l) = true ->
  Forall (fun x => contains (txt "===") x = false) rest ->
  normalize_lines uv (l :: rest)
  = replace_simple (simple uv) l :: mappings_block uv.
Proof.
  intros Hm Hrest. rewrite normalize_lines_cons. cbn zeta. rewrite Hm.
  assert (skip_to_section rest = []) as ->.
  { unfold skip_to_section. apply take_while_all.
    eapply Forall_impl; [exact Hrest|]. simpl. by intros x ->. }
  by rewrite normalize_lines_nil, app_nil_r.
Qed.

Lemma guard_without_delimiter_witness :
  normalize_lines (_extract_user_values scenario_config)
    [guard; txt "# Add your repos here:"; txt "EDITOR=vi"]
  = [guard; []; q "REPO_MAPPINGS[acmd]=`Org-Android`"].
Proof.
  apply (guard_without_delimiter (_extract_user_values scenario_config) guard
           [txt "# Add your repos here:"; txt "EDITOR=vi"]).
  - vm_compute. reflexivity.
  - repeat constructor.
Defined.

(** X18. When no line after the header of the IDE section starts with the
    commented IDE example, the merge loop copies the rest of the template as
    it is, later section headers and their examples included, and writes the
    user's IDE block at the very end; the user's CI and modules entries are
    then not written at all. *)
Theorem ide_section_without_example uv l rest :
  contains mappings_marker (replace_simple (simple uv) l) = false ->
  starts_with (txt "# Optional: IDE configuration")
    (replace_simple (simple uv) l) = true ->
  Forall (fun x => ide_example x = false) rest ->
  normalize_lines uv (l :: rest)
  = replace_simple (simple uv) l
    :: rest ++ entries_block (txt "REPO_IDE_CONFIGS") (ide_configs uv).
Proof.
  intros Hm Hh Hrest. rewrite normalize_lines_cons. cbn zeta. rewrite Hm, Hh.
  destruct (take_while_all (fun x => negb (ide_example x)) rest) as [-> ->].
  { eapply Forall_impl; [exact Hrest|]. simpl. by intros x ->. }
  cbn [drop_while]. by rewrite normalize_lines_nil, app_nil_r.
Qed.

Lemma ide_section_without_example_witness :
  normalize_lines (_extract_user_values scenario_config)
    [txt "# Optional: IDE configuration";
     txt "# Optional: CI commands";
     q "# REPO_CONFIGS[web]=`npm run build`"]
  = [txt "# Optional: IDE configuration";
     txt "# Optional: CI commands";
     q "# REPO_CONFIGS[web]=`npm run build`"].
Proof.
  apply (ide_section_without_example (_extract_user_values scenario_config)
           (txt "# Optional: IDE configuration")
           [txt "# Optional: CI commands";
            q "# REPO_CONFIGS[web]=`npm run build`"]).
  - vm_compute. reflexivity.
  - vm_compute. reflexivity.
  - repeat constructor.
Defined.

(** X19. Reading a merged document back: under the conditions of the
    merge, every simple value extracted from the user document is extracted
    again from the merged document, the alias entries extracted from the
    merged document are those of the user document, in the same order, and
    the keyed entries of each category are those of the user document with
    their keys passed once more through the reverse alias map. *)
Theorem extract_after_merge user :
  let uv := _extract_user_values user in
  let uv' := _extract_user_values (merge user example_config) in
  let full_to_short := build_full_to_short (mappings uv) in
  no_marker uv -> entries_one_line uv ->
  (forall var v,
     dict_get var (simple uv) = Some v -> dict_get var (simple uv') = Some v)
  /\ mappings uv' = mappings uv
  /\ ide_configs uv' = resolve_keys full_to_short (ide_configs uv)
  /\ repo_configs uv' = resolve_keys full_to_short (repo_configs uv)
  /\ repo_modules uv' = resolve_keys full_to_short (repo_modules uv).
Proof.
  intros uv uv' m Hnm He.
  pose proof (extract_simple_ok user) as Hok. fold uv in Hok.
  destruct (merged_extract user Hnm He) as (Hm & Hi & Hc & Hmo & _).
  fold uv in Hm, Hi, Hc, Hmo. unfold uv', m.
  cbn [_extract_user_values simple mappings ide_configs repo_configs
       repo_modules].
  rewrite Hm, Hi, Hc, Hmo. split_and!; try reflexivity.
  intros var v Hget.
  assert (var ∈ simple_vars) as Hvar.
  { unfold simple_ok in Hok. rewrite Forall_forall in Hok.
    apply (Hok _ (dict_get_elem_of _ _ _ Hget)). }
  rewrite dict_get_extract_simple by done.
  rewrite merge_text by done. fold uv.
  destruct (simple_line_position var Hvar) as (i & l & Hi' & Hl & Hb & _).
  apply (search_merged var uv template_items i l v Hok).
  - by apply simple_vars_no_nl.
  - by apply (merged_no_nl user).
  - done.
  - done.
  - by apply replace_simple_get.
Qed.

Lemma extract_after_merge_witness :
  let uv := _extract_user_values scenario_config in
  let uv' := _extract_user_values (merge scenario_config example_config) in
  mappings uv' = mappings uv
  /\ repo_configs uv'
     = resolve_keys (build_full_to_short (mappings uv)) (repo_configs uv).
Proof.
  intros uv uv'.
  destruct (extract_after_merge scenario_config scenario_no_marker
              scenario_one_line) as (_ & Hm & _ & Hc & _).
  exact (conj Hm Hc).
Defined.

(** X20. The loop that skips the examples of the CI and the modules
    sections removes nothing but example lines and at most one blank line:
    the lines it passes over are a prefix of the lines it is given, each of
    them an example line or a blank line, and at most one of them is no
    example line. *)
Theorem skip_examples_drops_examples_only is_example lines :
  exists dropped,
    lines = dropped ++ skip_examples is_example lines
    /\ Forall (fun x => is_example x = true \/ strip_is_empty x = true) dropped
    /\ length (filter (fun x => is_example x = false) dropped) <= 1.
Proof.
  induction lines as [|l rest (dropped & Heq & Hall & Hlen)].
  - exists []. split_and!; [done|constructor|simpl; lia].
  - cbn [skip_examples]. destruct (is_example l) eqn:El.
    + exists (l :: dropped). split_and!.
      * simpl. by rewrite <- Heq.
      * constructor; [by left|done].
      * rewrite filter_cons. destruct (decide (is_example l = false)); [|done].
        congruence.
    + destruct (starts_with (txt "# ===") l).
      { exists []. split_and!; [done|constructor|simpl; lia]. }
      destruct (strip_is_empty l
                && match rest with
                   | n :: _ => starts_with (txt "# ===") n
                   | [] => false
                   end) eqn:Eb.
      * apply andb_prop in Eb as [Eb _]. exists [l]. split_and!.
        -- done.
        -- constructor; [by right|constructor].
        -- rewrite filter_cons, filter_nil.
           destruct (decide (is_example l = false)); simpl; lia.
      * exists []. split_and!; [done|constructor|simpl; lia].
Qed.

End NormalizeMore.

(** ** The scenarios of the repository's tests *)

Section RepositoryTests.

Import Normalizer Template Spec.

(** [test_convert_full_names_to_shorthand]: canonical names used as keys
    are extracted, and written, under their shorthand. *)
Lemma convert_full_names_to_shorthand :
  let uv := _extract_user_values full_names_config in
  let out := split_nl (merge full_names_config example_config) in
  repo_configs uv
  = [(txt "acmd", txt "./gradlew build|./gradlew test|./gradlew lint");
     (txt "icmd",
      txt "bundle exec fastlane build|bundle exec fastlane test|swiftlint")]
  /\ repo_modules uv = [(txt "acmd", txt "app-core app-auth")]
  /\ ide_configs uv
     = [(txt "acmd", txt "android-studio||");
        (txt "icmd", txt "xcode-workspace|Company-iOS.xcworkspace|")]
  /\ lines_with (txt "REPO_CONFIGS[") out
     = [q "REPO_CONFIGS[acmd]=`./gradlew build|./gradlew test|./gradlew lint`";
        q "REPO_CONFIGS[icmd]=`bundle exec fastlane build|bundle exec fastlane test|swiftlint`"]
  /\ lines_with (txt "REPO_MODULES[") out
     = [q "REPO_MODULES[acmd]=`app-core app-auth`"]
  /\ lines_with (txt "REPO_IDE_CONFIGS[") out
     = [q "REPO_IDE_CONFIGS[acmd]=`android-studio||`";
        q "REPO_IDE_CONFIGS[icmd]=`xcode-workspace|Company-iOS.xcworkspace|`"].
Proof. vm_compute. done. Qed.

(** [test_normalize_empty_arrays]: without alias entries the declaration
    is kept and no alias line is written. *)
Lemma normalize_empty_arrays :
  let out := split_nl (merge no_entries_config example_config) in
  lines_with mappings_marker out = [guard]
  /\ lines_with (txt "REPO_MAPPINGS[") out = []
  /\ lines_with (txt "GIT_USERNAME=") out = [txt "GIT_USERNAME=testuser"]
  /\ length out = 80.
Proof. vm_compute. done. Qed.

End RepositoryTests.
